(** * Task manager core: aggregation, threshold alerts and durable suspension

    A shallow embedding of [os_project/task_manager.py] (class
    [TaskManagerApp]): network throughput, grouping and summing of process
    samples, the high-memory alert set, the suspend / persist / resume
    scheduler with its start-up recovery, and around them the search box,
    the end-task button, the pids read back from the tree, the click on a
    toast and the samples of the trend chart.  The widgets themselves and
    the PID-info dialog are not embedded.

    Conventions of the embedding.
    - Python [int] is [Z]; Python [float] is an exact rational [Q]
      (rounding is outside the model); where [inf] and [nan] can reach the
      code, in the suspension scheduler, a float is a [Py.pyfloat], which
      has them; [str] is [string] over 8-bit characters.
    - A [dict] keyed by pid is a [gmap Z _]; the [alerted_names] set is a
      [gset string]; the [processes] dict, whose insertion order decides the
      output order, is an association list.
    - Calls into [psutil], [tkinter], the file system and the clock are
      effects on an explicit [State]: every call is logged in a chronological
      trace, and its outcome is chosen by an environment that may inspect the
      whole history; a thread that the source starts is run in line, and a
      dialog that the source schedules on the main thread is shown at once.
    - An exception that no [try] of the source catches ends the method or
      the thread in which it is raised; such a run yields [Raised]. *)

From Stdlib Require Import ZArith QArith Qminmax Qabs List Ascii String Lia Lqa.
From stdpp Require Import gmap strings list fin_maps pretty.

Local Open Scope Z_scope.

(** ** Python primitives used by the source *)

Module Py.

(** [max(a, b)] on floats: the first argument unless the second is
    strictly greater. *)
Definition max (a b : Q) : Q := if Qlt_le_dec a b then b else a.

(** [a < b] on floats, as a boolean. *)
Definition lt (a b : Q) : bool := if Qlt_le_dec a b then true else false.

(** [int(x)] on a float: truncation toward zero. *)
Definition int (x : Q) : Z := Z.quot (Qnum x) (Zpos (Qden x)).

(** [float(n)] on an int. *)
Definition float (n : Z) : Q := inject_Z n.

(** [c.lower()] for one character: only [A]..[Z] change. *)
Definition lower_char (c : ascii) : ascii :=
  let n := nat_of_ascii c in
  if ((65 <=? n)%nat && (n <=? 90)%nat)%bool then ascii_of_nat (n + 32) else c.

(** [s.lower()] *)
Fixpoint lower (s : string) : string :=
  match s with
  | EmptyString => EmptyString
  | String c s' => String (lower_char c) (lower s')
  end.

(** [c.isspace()] on the 7-bit range: TAB, LF, VT, FF, CR, FS, GS, RS, US
    and the blank. *)
Definition isspace (c : ascii) : bool :=
  let n := nat_of_ascii c in
  (((9 <=? n)%nat && (n <=? 13)%nat) || ((28 <=? n)%nat && (n <=? 32)%nat))%bool.

(** [s.lstrip()] *)
Fixpoint lstrip (s : string) : string :=
  match s with
  | EmptyString => EmptyString
  | String c s' => if isspace c then lstrip s' else s
  end.

(** [s.rstrip()] *)
Fixpoint rstrip (s : string) : string :=
  match s with
  | EmptyString => EmptyString
  | String c s' =>
      match rstrip s' with
      | EmptyString => if isspace c then EmptyString else String c EmptyString
      | r => String c r
      end
  end.

(** [s.strip()] *)
Definition strip (s : string) : string := rstrip (lstrip s).

(** [s.endswith(suf)] *)
Fixpoint endswith (s suf : string) : bool :=
  if String.eqb s suf then true
  else match s with
       | EmptyString => false
       | String _ s' => endswith s' suf
       end.

(** [str(n)] / [f"{n}"] on an int: decimal digits, [-] for negatives. *)
Definition str (n : Z) : string := pretty n.

(** [x or d] on an optional value ([None] is falsy). *)
Definition or_default {A} (x : option A) (d : A) : A :=
  match x with Some v => v | None => d end.

(** A Python [float] where the special values matter: a finite value (an
    exact rational), or one of [inf], [-inf] and [nan]. *)
Inductive pyfloat :=
| Finite (q : Q)
| PosInf
| NegInf
| NaN.

(** [a + b] on floats. *)
Definition fadd (a b : pyfloat) : pyfloat :=
  match a, b with
  | Finite x, Finite y => Finite (x + y)
  | NaN, _ | _, NaN => NaN
  | PosInf, NegInf | NegInf, PosInf => NaN
  | PosInf, _ | _, PosInf => PosInf
  | NegInf, _ | _, NegInf => NegInf
  end.

(** [a - b] on floats. *)
Definition fsub (a b : pyfloat) : pyfloat :=
  match a, b with
  | Finite x, Finite y => Finite (x - y)
  | NaN, _ | _, NaN => NaN
  | PosInf, PosInf | NegInf, NegInf => NaN
  | PosInf, _ | _, NegInf => PosInf
  | NegInf, _ | _, PosInf => NegInf
  end.

(** [a * k] on floats, for a finite [k]. *)
Definition fscale (a : pyfloat) (k : Q) : pyfloat :=
  match a with
  | Finite x => Finite (x * k)
  | NaN => NaN
  | PosInf => if lt 0 k then PosInf else if lt k 0 then NegInf else NaN
  | NegInf => if lt 0 k then NegInf else if lt k 0 then PosInf else NaN
  end.

(** [a < b] on floats: false as soon as one side is [nan]. *)
Definition flt (a b : pyfloat) : bool :=
  match a, b with
  | Finite x, Finite y => lt x y
  | NaN, _ | _, NaN => false
  | _, NegInf | PosInf, _ => false
  | NegInf, _ | _, PosInf => true
  end.

(** [int(a)] on a float: truncation toward zero; [None] stands for the
    [OverflowError] raised on an infinity and the [ValueError] raised on
    [nan]. *)
Definition fint (a : pyfloat) : option Z :=
  match a with
  | Finite x => Some (int x)
  | PosInf | NegInf | NaN => None
  end.

End Py.

(** ** Network throughput: [_get_network_kbps_for_pid] *)

Module Net.

(** [proc.io_counters()]: the two byte counters the source reads, each
    possibly missing ([getattr(io, _, 0) or 0]). *)
Record io_counters := { read_bytes : option Z; write_bytes : option Z }.

(** The minimum elapsed time, [0.001] seconds. *)
Definition EPSILON : Q := 1 # 1000.

(** [self.last_net_io]: pid -> (bytes, timestamp). *)
Abbreviation last_net_io_t := (gmap Z (Z * Q)).

(** [_get_network_kbps_for_pid(pid, proc, now)].  [io] is the outcome of
    [proc.io_counters()], [None] when it raises.  Returns the throughput
    and the updated [last_net_io]. *)
Definition _get_network_kbps_for_pid
    (last_net_io : last_net_io_t) (pid : Z) (io : option io_counters) (now : Q)
  : Q * last_net_io_t :=
  match io with
  | None => (0%Q, last_net_io)
  | Some io =>
      let total_bytes :=
        Py.or_default (read_bytes io) 0 + Py.or_default (write_bytes io) 0 in
      let kbps :=
        match last_net_io !! pid with
        | Some (last_bytes, last_time) =>
            let delta := total_bytes - last_bytes in
            let dt := Py.max (now - last_time) EPSILON in
            ((Py.float delta / dt) / 1024)%Q
        | None => 0%Q
        end in
      (Py.max kbps 0, <[pid := (total_bytes, now)]> last_net_io)
  end.

(** The throughput formula in the words of the specification. *)
Definition spec_kbps (current_io_bytes previous_io_bytes : Z) (elapsed_seconds : Q) : Q :=
  Qmax 0 (inject_Z (current_io_bytes - previous_io_bytes)
          / Qmax elapsed_seconds EPSILON / 1024).

End Net.

(** ** Grouping and summing: [update_processes_list] *)

Module Agg.

(** What one iteration of [psutil.process_iter] yields for a process.
    [cpu_percent = None] stands for [proc.cpu_percent] raising
    ([NoSuchProcess], [AccessDenied]); [memory_info] carries [rss]. *)
Record proc_sample := {
  pid : Z;
  name : option string;
  memory_info : option Z;
  cpu_percent : option Q;
  io : option Net.io_counters
}.

(** One entry of [agg["per_pid"]]. *)
Record pid_detail := {
  d_cpu : Q;
  d_memory : Q;
  d_power : Q;
  d_network : Q
}.

(** One aggregate row, the dict stored under [processes[key]]. *)
Record group := {
  key : string;
  display_name : string;
  pids : list Z;
  cpu : Q;
  memory : Q;
  power : Q;
  network : Q;
  per_pid : gmap Z pid_detail
}.

(** [self.CPU_TDP_WATTS] *)
Definition CPU_TDP_WATTS : Q := 15.

(** [_estimate_power_mw(cpu_pct)] *)
Definition _estimate_power_mw (cpu_pct : Q) : Q :=
  ((cpu_pct / 100) * CPU_TDP_WATTS * 1000)%Q.

(** [(info.get('name') or "unknown").strip()]: [None] and the empty
    string are both falsy. *)
Definition raw_name_of (s : proc_sample) : string :=
  Py.strip (match name s with
            | None | Some EmptyString => "unknown"
            | Some n => n
            end).

(** The [key] chosen for a sample (lines 335-342). *)
Definition group_key (s : proc_sample) : string :=
  let name_lower := Py.lower (raw_name_of s) in
  if Py.endswith name_lower ".exe" then name_lower
  else name_lower +:+ "_" +:+ Py.str (pid s).

(** [mem_mb] (lines 345-348). *)
Definition mem_mb_of (s : proc_sample) : Q :=
  match memory_info s with
  | Some rss => (Py.float rss / (1024 * 1024))%Q
  | None => 0%Q
  end.

(** The insertion-ordered dict [processes]. *)
Abbreviation processes_t := (list (string * group)).

(** [processes.get(k)] *)
Fixpoint dict_get (k : string) (d : processes_t) : option group :=
  match d with
  | [] => None
  | (k', g) :: d' => if decide (k' = k) then Some g else dict_get k d'
  end.

(** In-place update of the entry stored under [k]. *)
Fixpoint dict_alter (f : group -> group) (k : string) (d : processes_t) : processes_t :=
  match d with
  | [] => []
  | (k', g) :: d' =>
      if decide (k' = k) then (k', f g) :: d' else (k', g) :: dict_alter f k d'
  end.

(** [if key not in processes: processes[key] = {...}] *)
Definition dict_setdefault (k : string) (g : group) (d : processes_t) : processes_t :=
  match dict_get k d with
  | Some _ => d
  | None => d ++ [(k, g)]
  end.

(** The fresh aggregate of lines 354-363. *)
Definition new_group (k dn : string) : group :=
  {| key := k; display_name := dn; pids := []; cpu := 0; memory := 0;
     power := 0; network := 0; per_pid := ∅ |}.

(** Lines 365-376: fold one pid into its aggregate. *)
Definition add_to_group (p : Z) (d : pid_detail) (agg : group) : group :=
  {| key := key agg;
     display_name := display_name agg;
     pids := pids agg ++ [p];
     cpu := (cpu agg + d_cpu d)%Q;
     memory := (memory agg + d_memory d)%Q;
     power := (power agg + d_power d)%Q;
     network := (network agg + d_network d)%Q;
     per_pid := <[p := d]> (per_pid agg) |}.

(** The loop body of [update_processes_list] for one process.  A process
    whose [cpu_percent] raises is skipped before anything is touched. *)
Definition process_one (now : Q) (st : processes_t * Net.last_net_io_t) (s : proc_sample)
  : processes_t * Net.last_net_io_t :=
  let '(processes, last_net_io) := st in
  match cpu_percent s with
  | None => st
  | Some c =>
      let k := group_key s in
      let display := raw_name_of s in
      let '(net_kbps, last_net_io') :=
        Net._get_network_kbps_for_pid last_net_io (pid s) (io s) now in
      let d := {| d_cpu := c; d_memory := mem_mb_of s;
                  d_power := _estimate_power_mw c; d_network := net_kbps |} in
      (dict_alter (add_to_group (pid s) d) k
         (dict_setdefault k (new_group k display) processes),
       last_net_io')
  end.

(** [list.sort(key=lambda x: x["cpu"], reverse=True)]: a stable sort,
    largest [cpu] first, equal keys keeping their order. *)
Fixpoint insert_by_cpu (x : group) (l : list group) : list group :=
  match l with
  | [] => [x]
  | y :: l' => if Qlt_le_dec (cpu x) (cpu y) then y :: insert_by_cpu x l' else x :: l
  end.

Definition sort_by_cpu_desc (l : list group) : list group :=
  foldr insert_by_cpu [] l.

(** The loop of [update_processes_list] over one enumeration. *)
Definition collect (now : Q) (last_net_io : Net.last_net_io_t) (samples : list proc_sample)
  : processes_t * Net.last_net_io_t :=
  fold_left (process_one now) samples ([], last_net_io).

(** [update_processes_list]: the new [self.all_processes] and
    [self.last_net_io]. *)
Definition update_processes_list
    (last_net_io : Net.last_net_io_t) (samples : list proc_sample) (now : Q)
  : list group * Net.last_net_io_t :=
  let '(processes, last_net_io') := collect now last_net_io samples in
  (sort_by_cpu_desc (map snd processes), last_net_io').

(** [Σ per_pid[p].field] over [pids], missing entries counting as [0.0]
    (the [.get(pid, {})] / [.get(field, 0.0)] of the display code). *)
Definition sum_detail (f : pid_detail -> Q) (g : group) : Q :=
  fold_left (fun acc p => (acc + from_option f 0 (per_pid g !! p))%Q) (pids g) 0%Q.

(** The samples of an enumeration that are folded into the aggregates:
    those whose [cpu_percent] did not raise. *)
Definition live (samples : list proc_sample) : list proc_sample :=
  filter (λ s, is_Some (cpu_percent s)) samples.

(** The pids of the live samples that fall under the key [k], in
    enumeration order. *)
Definition pids_under (k : string) (samples : list proc_sample) : list Z :=
  pid <$> filter (λ s, group_key s = k) (live samples).

(** The sums of a group agree with its retained per-pid entries, and
    every member pid has an entry. *)
Definition sums_ok (g : group) : Prop :=
  cpu g = sum_detail d_cpu g
  ∧ memory g = sum_detail d_memory g
  ∧ power g = sum_detail d_power g
  ∧ network g = sum_detail d_network g
  ∧ ∀ p, p ∈ pids g → is_Some (per_pid g !! p).

(** The per-pid entry retained for a sample. *)
Definition entry_ok (s : proc_sample) (g : group) : Prop :=
  ∃ dt, per_pid g !! pid s = Some dt
        ∧ cpu_percent s = Some (d_cpu dt)
        ∧ d_memory dt = mem_mb_of s
        ∧ d_power dt = _estimate_power_mw (d_cpu dt).

(** What holds of the dict [processes] once the samples [l] have been
    processed. *)
Definition inv (l : list proc_sample) (d : list (string * group)) : Prop :=
  NoDup d.*1
  ∧ ∀ k, match dict_get k d with
         | None => pids_under k l = []
         | Some g =>
             key g = k ∧ pids g = pids_under k l ∧ pids g ≠ []
             ∧ (∃ s, s ∈ live l ∧ group_key s = k ∧ display_name g = raw_name_of s)
             ∧ (NoDup (pid <$> l) →
                sums_ok g ∧ ∀ s, s ∈ live l → group_key s = k → entry_ok s g)
         end.

(** A list of groups in the order [sort(key=cpu, reverse=True)] leaves it:
    no group is followed by one with a larger [cpu]. *)
Fixpoint cpu_descending (l : list group) : Prop :=
  match l with
  | [] => True
  | x :: l' => Forall (λ y, (cpu y <= cpu x)%Q) l' ∧ cpu_descending l'
  end.

(** A readable sample without I/O counters. *)
Definition sample (p : Z) (n : string) (rss : Z) (c : Q) : proc_sample :=
  {| pid := p; name := Some n; memory_info := Some rss; cpu_percent := Some c;
     io := None |}.

End Agg.

(** ** High-memory flagging and alert de-duplication: [display_processes] *)

Module Alert.

(** Lines 397-402.  [entry] is the outcome of
    [float(self.memory_limit_entry.get())], [None] when it raises. *)
Definition memory_limit_of (entry : option Q) : Q :=
  match entry with
  | Some l => if Py.lt l 0 then 0%Q else l
  | None => 0%Q
  end.

(** The test of line 416. *)
Definition is_high (memory_limit mem_sum : Q) : bool :=
  (Py.lt 0 memory_limit && Py.lt memory_limit mem_sum)%bool.

(** A toast handed to [self.notifier.show_toast]: the display name and the
    memory sum it reports. *)
Record toast := { toast_name : string; toast_mem : Q }.

(** What the loop of [display_processes] carries. *)
Record loop_state := {
  current_high_names : gset string;
  alerted_names : gset string;
  toasts : list toast;
  rows : list (Agg.group * bool)
}.

(** The loop body, lines 406-450: tag the row, and notify once per name
    not yet alerted. *)
Definition display_one (memory_limit : Q) (st : loop_state) (p : Agg.group) : loop_state :=
  let name := Agg.display_name p in
  let mem_sum := Agg.memory p in
  if is_high memory_limit mem_sum then
    if decide (name ∈ alerted_names st) then
      {| current_high_names := {[name]} ∪ current_high_names st;
         alerted_names := alerted_names st;
         toasts := toasts st;
         rows := rows st ++ [(p, true)] |}
    else
      {| current_high_names := {[name]} ∪ current_high_names st;
         alerted_names := {[name]} ∪ alerted_names st;
         toasts := toasts st ++ [{| toast_name := name; toast_mem := mem_sum |}];
         rows := rows st ++ [(p, true)] |}
  else
    {| current_high_names := current_high_names st;
       alerted_names := alerted_names st;
       toasts := toasts st;
       rows := rows st ++ [(p, false)] |}.

(** [display_processes(processes)], from the alert set of the previous
    cycle: the rows with their [high_memory] tag, the toasts shown, the
    names found high and the alert set left behind (lines 464-471 remove
    every alerted name that is not currently high). *)
Definition display_processes
    (alerted : gset string) (entry : option Q) (processes : list Agg.group)
  : loop_state :=
  let memory_limit := memory_limit_of entry in
  let st := fold_left (display_one memory_limit) processes
              {| current_high_names := ∅; alerted_names := alerted;
                 toasts := []; rows := [] |} in
  let to_remove : gset string :=
    filter (λ n, n ∉ current_high_names st) (alerted_names st) in
  {| current_high_names := current_high_names st;
     alerted_names := alerted_names st ∖ to_remove;
     toasts := toasts st;
     rows := rows st |}.

(** The names found high in a list of groups under a limit. *)
Definition high_in (memory_limit : Q) (ps : list Agg.group) : gset string :=
  list_to_set (map Agg.display_name
                 (List.filter (λ p, is_high memory_limit (Agg.memory p)) ps)).

(** The display names whose group is high under the configured limit. *)
Definition high_names (entry : option Q) (processes : list Agg.group) : gset string :=
  high_in (memory_limit_of entry) processes.

(** The toasts of a pass over [ps] that starts from the alert set [A]. *)
Fixpoint new_toasts (memory_limit : Q) (A : gset string) (ps : list Agg.group) : list toast :=
  match ps with
  | [] => []
  | p :: ps' =>
      if is_high memory_limit (Agg.memory p) then
        if decide (Agg.display_name p ∈ A) then new_toasts memory_limit A ps'
        else {| toast_name := Agg.display_name p; toast_mem := Agg.memory p |}
             :: new_toasts memory_limit ({[Agg.display_name p]} ∪ A) ps'
      else new_toasts memory_limit A ps'
  end.

(** Successive display cycles, each with its own limit entry and process
    list; yields the toasts of every cycle and the final alert set. *)
Fixpoint run_cycles (alerted : gset string)
    (cycles : list (option Q * list Agg.group)) : list (list toast) * gset string :=
  match cycles with
  | [] => ([], alerted)
  | (entry, processes) :: rest =>
      let st := display_processes alerted entry processes in
      let '(ts, final) := run_cycles (alerted_names st) rest in
      (toasts st :: ts, final)
  end.

End Alert.

(** ** Durable suspend / resume: persistence helpers, scheduler, recovery *)

Module Suspend.

(** The dict written to [SUSPEND_STATE_FILE].  [resume_time] is a float
    and may be [inf] or [nan] (a custom duration of "inf" minutes gives
    [inf]); [json.dump] writes these as [Infinity] and [NaN], and
    [json.load] reads them back. *)
Record SuspensionRecord := {
  pids : list Z;
  resume_time : Py.pyfloat;
  saved_at : Q
}.

(** A dict that passes the validation of [load_suspend_state] ([pids] is
    a list and the key [resume_time] is present): a record whose
    [resume_time] is a number, or a dict whose [resume_time] is something
    on which [float()] raises ([null], a string that is no number, a
    list).  The elements of [pids] are taken to be ints, as
    [save_suspend_state] writes them. *)
Inductive state_dict :=
| StateRecord (r : SuspensionRecord)
| StateOther (pids : list Z).

(** What [SUSPEND_STATE_FILE] holds when it exists: a dict that passes
    the validation, or anything else (unparsable, not a dict, [pids] not a
    list, no [resume_time]). *)
Inductive file_content :=
| FileDict (d : state_dict)
| FileGarbage.

Abbreviation FileRecord r := (FileDict (StateRecord r)).

(** [state.get("pids", [])] *)
Definition dict_pids (d : state_dict) : list Z :=
  match d with
  | StateRecord r => pids r
  | StateOther l => l
  end.

(** [float(state.get("resume_time", 0))]; [None] when [float()] raises. *)
Definition dict_resume_time (d : state_dict) : option Py.pyfloat :=
  match d with
  | StateRecord r => Some (resume_time r)
  | StateOther _ => None
  end.

(** How [open(..., "w")] followed by [json.dump] can end: both succeed,
    [open] raises (the file is untouched), or [json.dump] raises after
    [open] has truncated the file. *)
Inductive write_result := WriteOk | OpenFails | DumpFails.

(** The calls that leave the program, with their outcome.  The last
    argument of [EvSuspend] is no part of the call: it notes what the
    state file holds at the moment the call is made.  [EvSleep] is a
    [time.sleep] that returns, [EvSleepRaises] one that raises. *)
Inductive event :=
| EvWrite (r : SuspensionRecord) (res : write_result)
| EvRemove (ok : bool)
| EvSuspend (pid : Z) (ok : bool) (file : option file_content)
| EvResume (pid : Z) (ok : bool)
| EvSleep (dt : Q)
| EvSleepRaises (dt : Py.pyfloat)
| EvShowInfo (title : string) (count : nat)
| EvShowWarning (message : string)
| EvShowError (message : string)
| EvAskYesNo (title : string) (count : nat) (answer : option bool).

(** The environment: the outcome of each call as a function of the
    history so far.  [ask] answers [None] when the message box raises.
    [sleep_max] is the longest duration that [time.sleep] accepts; a longer
    one raises [OverflowError]. *)
Record Env := {
  write_outcome : list event -> SuspensionRecord -> write_result;
  remove_ok : list event -> bool;
  suspend_ok : list event -> Z -> bool;
  resume_ok : list event -> Z -> bool;
  ask : list event -> string -> option bool;
  sleep_max : Q
}.

(** The state threaded through the scheduler: the environment, the clock
    read by [time.time()], the state file, the history of calls, and the
    field [self.active_suspended]. *)
Record State := {
  env : Env;
  clock : Q;
  disk : option file_content;
  trace : list event;
  active_suspended : option SuspensionRecord
}.

(** How a method or a thread ends: it returns, or an exception that no
    [try] catches ends it. *)
Inductive outcome := Returned | Raised.

Definition M (A : Type) : Type := State -> A * State.

#[global] Instance M_ret : MRet M := λ A x s, (x, s).
#[global] Instance M_bind : MBind M := λ A B f m s, let '(x, s') := m s in f x s'.

(** The state after the calls [evs] have been logged. *)
Definition extend (s : State) (evs : list event) : State :=
  {| env := env s; clock := clock s; disk := disk s;
     trace := trace s ++ evs; active_suspended := active_suspended s |}.

Definition emit (e : event) : M unit := λ s, (tt, extend s [e]).

Definition set_disk (d : option file_content) : M unit := λ s,
  (tt, {| env := env s; clock := clock s; disk := d;
          trace := trace s; active_suspended := active_suspended s |}).

Definition set_active (a : option SuspensionRecord) : M unit := λ s,
  (tt, {| env := env s; clock := clock s; disk := disk s;
          trace := trace s; active_suspended := a |}).

Definition get {A} (f : State -> A) : M A := λ s, (f s, s).

(** [time.time()] *)
Definition time_time : M Q := get clock.

(** Whether [time.sleep(dt)] returns: the duration it then sleeps, or
    [None] when it raises ([ValueError] on a negative duration and on
    [nan], [OverflowError] on a duration beyond [sleep_max], so on
    [inf]). *)
Definition sleep_duration (max : Q) (dt : Py.pyfloat) : option Q :=
  match dt with
  | Py.Finite q => if (Py.lt q 0 || Py.lt max q)%bool then None else Some q
  | Py.PosInf | Py.NegInf | Py.NaN => None
  end.

(** [time.sleep(dt)]: the only thing that moves the clock.  Returns
    [false] when the call raises. *)
Definition time_sleep (dt : Py.pyfloat) : M bool := λ s,
  match sleep_duration (sleep_max (env s)) dt with
  | Some q =>
      (true, {| env := env s; clock := (clock s + q)%Q; disk := disk s;
                trace := trace s ++ [EvSleep q];
                active_suspended := active_suspended s |})
  | None => (false, extend s [EvSleepRaises dt])
  end.

(** [with open(SUSPEND_STATE_FILE, "w") as f: json.dump(data, f)] *)
Definition write_file (data : SuspensionRecord) : M write_result :=
  res ← get (λ s, write_outcome (env s) (trace s) data);
  d ← get disk;
  set_disk (match res with
            | WriteOk => Some (FileRecord data)
            | OpenFails => d
            | DumpFails => Some FileGarbage
            end);;
  emit (EvWrite data res);;
  mret res.

(** [psutil.Process(pid).suspend()] inside its [try]. *)
Definition os_suspend (pid : Z) : M bool :=
  ok ← get (λ s, suspend_ok (env s) (trace s) pid);
  file ← get disk;
  emit (EvSuspend pid ok file);;
  mret ok.

(** [psutil.Process(pid).resume()] inside its [try]. *)
Definition os_resume (pid : Z) : M bool :=
  ok ← get (λ s, resume_ok (env s) (trace s) pid);
  emit (EvResume pid ok);;
  mret ok.

(** [messagebox.askyesno(title, ...)] *)
Definition askyesno (title : string) (count : nat) : M (option bool) :=
  ans ← get (λ s, ask (env s) (trace s) title);
  emit (EvAskYesNo title count ans);;
  mret ans.

(** [save_suspend_state(pid_list, resume_time)]: a failed write is
    swallowed by [except Exception: pass], and then the in-memory copy is
    not set either. *)
Definition save_suspend_state (pid_list : list Z) (resume_time : Py.pyfloat) : M unit :=
  now ← time_time;
  let data := {| pids := pid_list; resume_time := resume_time; saved_at := now |} in
  res ← write_file data;
  match res with
  | WriteOk => set_active (Some data)
  | OpenFails | DumpFails => mret tt
  end.

(** [load_suspend_state()] *)
Definition load_suspend_state : M (option state_dict) :=
  d ← get disk;
  mret (match d with
        | Some (FileDict data) => Some data
        | Some FileGarbage | None => None
        end).

(** [clear_suspend_state()] *)
Definition clear_suspend_state : M unit :=
  d ← get disk;
  match d with
  | Some _ =>
      ok ← get (λ s, remove_ok (env s) (trace s));
      (if (ok : bool) then set_disk None else mret tt);;
      emit (EvRemove ok)
  | None => mret tt
  end;;
  set_active None.

(** The suspend loop of lines 235-243: the pids whose suspend succeeded. *)
Fixpoint suspend_each (pid_list suspended_pids : list Z) : M (list Z) :=
  match pid_list with
  | [] => mret suspended_pids
  | pid :: rest =>
      ok ← os_suspend pid;
      suspend_each rest (if (ok : bool) then suspended_pids ++ [pid] else suspended_pids)
  end.

(** The resume loops (lines 258-264, 277-283, 692-698): how many
    succeeded. *)
Fixpoint resume_each (pid_list : list Z) (resumed : nat) : M nat :=
  match pid_list with
  | [] => mret resumed
  | pid :: rest =>
      ok ← os_resume pid;
      resume_each rest (if (ok : bool) then S resumed else resumed)
  end.

(** [resume_pids(pid_list)] *)
Definition resume_pids (pid_list : list Z) : M nat := resume_each pid_list 0%nat.

(** [_suspend_resume_processes(pid_list, seconds)].  The [time.sleep] of
    line 255 is outside any [try]: when it raises, the thread ends there,
    before the resume loop and before [clear_suspend_state]. *)
Definition _suspend_resume_processes (pid_list : list Z) (seconds : Py.pyfloat)
  : M outcome :=
  t0 ← time_time;
  let resume_time := Py.fadd (Py.Finite t0) seconds in
  save_suspend_state pid_list resume_time;;
  suspended_pids ← suspend_each pid_list [];
  emit (EvShowInfo "Stopped" (length suspended_pids));;
  t1 ← time_time;
  let time_left := Py.fsub resume_time (Py.Finite t1) in
  slept ← (if Py.flt (Py.Finite 0) time_left then time_sleep time_left else mret true);
  if (slept : bool) then
    resumed ← resume_each suspended_pids 0%nat;
    clear_suspend_state;;
    (if (0 <? resumed)%nat then emit (EvShowInfo "Resumed" resumed) else mret tt);;
    mret Returned
  else mret Raised.

(** Lines 202-218.  [custom] is the outcome of
    [float(self.custom_minutes.get())], [None] when it raises ("inf" and
    "nan" do parse); the result is [None] exactly on the "Invalid custom
    minutes." path. *)
Definition seconds_of_choice (choice : string) (custom : option Py.pyfloat)
  : option Py.pyfloat :=
  if decide (choice = "2 Hours") then Some (Py.Finite (inject_Z (2 * 3600)))
  else if decide (choice = "7 Days") then Some (Py.Finite (inject_Z (7 * 24 * 3600)))
  else if decide (choice = "1 Month") then Some (Py.Finite (inject_Z (30 * 24 * 3600)))
  else if decide (choice = "1 Year") then Some (Py.Finite (inject_Z (365 * 24 * 3600)))
  else if decide (choice = "Custom (Minutes)") then
    match custom with
    | Some minutes => Some (Py.fscale minutes 60)
    | None => None
    end
  else Some (Py.Finite (inject_Z 3600)).

(** [stop_selected_task()].  [selection] is what the tree yields: [None]
    when no row has focus, otherwise the pids read from the child rows of
    the selected group.  The background thread is run in line; how it ends
    does not reach the method that started it. *)
Definition stop_selected_task
    (selection : option (list Z)) (choice : string) (custom : option Py.pyfloat)
  : M unit :=
  match selection with
  | None => emit (EvShowWarning "Please select a process/group to stop.")
  | Some [] => emit (EvShowWarning "Could not determine PIDs to stop.")
  | Some pid_list =>
      match seconds_of_choice choice custom with
      | None => emit (EvShowError "Invalid custom minutes.")
      | Some seconds =>
          ans ← askyesno "Confirm" (length pid_list);
          match ans with
          | Some true => _suspend_resume_processes pid_list seconds;; mret tt
          | Some false | None => mret tt
          end
      end
  end.

(** [_delayed_resume_from_persisted(pids, resume_time)]; the [time.sleep]
    of line 691 is outside any [try] as well. *)
Definition _delayed_resume_from_persisted (pids : list Z) (resume_time : Py.pyfloat)
  : M outcome :=
  now ← time_time;
  let wait := Py.fsub resume_time (Py.Finite now) in
  slept ← (if Py.flt (Py.Finite 0) wait then time_sleep wait else mret true);
  if (slept : bool) then
    resumed ← resume_each pids 0%nat;
    clear_suspend_state;;
    (if (0 <? resumed)%nat then emit (EvShowInfo "Resumed" resumed) else mret tt);;
    mret Returned
  else mret Raised.

(** [check_persisted_suspend_state()], with [ask_and_take_action] and the
    thread it may start run in line.  [float(...)] and [int(...)] of lines
    650-652 are outside any [try]: when one of them raises, the method ends
    there, before any resume, removal or prompt. *)
Definition check_persisted_suspend_state : M outcome :=
  state ← load_suspend_state;
  match state with
  | None => mret Returned
  | Some st =>
      let pids := dict_pids st in
      match dict_resume_time st with
      | None => mret Raised
      | Some resume_time =>
          now ← time_time;
          match Py.fint (Py.fsub resume_time (Py.Finite now)) with
          | None => mret Raised
          | Some remaining =>
              if remaining <=? 0 then
                resumed ← resume_pids pids;
                clear_suspend_state;;
                (if (0 <? resumed)%nat then emit (EvShowInfo "Resumed" resumed)
                 else mret tt);;
                mret Returned
              else
                ans ← askyesno "Resume Suspended Processes" (length pids);
                match ans with
                | Some true =>
                    resumed ← resume_pids pids;
                    clear_suspend_state;;
                    (if (0 <? resumed)%nat then emit (EvShowInfo "Resumed" resumed)
                     else mret tt);;
                    mret Returned
                | Some false | None => _delayed_resume_from_persisted pids resume_time
                end
          end
      end
  end.

(** *** The shared tails, named for the proofs

    The source writes these lines out in each method; the methods above
    follow it, and the proofs relate them to the two definitions here. *)

(** Resume every pid, clear the record, report the count when it is
    positive (lines 258-273, 655-660, 672-675, 692-704). *)
Definition resume_and_clear (pid_list : list Z) : M outcome :=
  resumed ← resume_each pid_list 0%nat;
  clear_suspend_state;;
  (if (0 <? resumed)%nat then emit (EvShowInfo "Resumed" resumed) else mret tt);;
  mret Returned.

(** Sleep for [dt] when it is positive, then [resume_and_clear]
    (lines 253-273 and 688-704). *)
Definition wait_then_resume (pid_list : list Z) (dt : Py.pyfloat) : M outcome :=
  slept ← (if Py.flt (Py.Finite 0) dt then time_sleep dt else mret true);
  if (slept : bool) then resume_and_clear pid_list else mret Raised.

(** *** Observations on a history *)

Definition is_suspend (e : event) : bool :=
  match e with EvSuspend _ _ _ => true | _ => false end.

Definition is_write (e : event) : bool :=
  match e with EvWrite _ _ => true | _ => false end.

Definition is_prompt (e : event) : bool :=
  match e with EvAskYesNo _ _ _ => true | _ => false end.

(** A [time.sleep], whether it returned or raised. *)
Definition is_sleep (e : event) : bool :=
  match e with EvSleep _ | EvSleepRaises _ => true | _ => false end.

(** The pids on which a resume was attempted, in order. *)
Definition resume_attempts (t : list event) : list Z :=
  omap (λ e, match e with EvResume p _ => Some p | _ => None end) t.

(** The pids on which a suspend was attempted, in order. *)
Definition suspend_attempts (t : list event) : list Z :=
  omap (λ e, match e with EvSuspend p _ _ => Some p | _ => None end) t.

(** The pids whose suspend succeeded, in order. *)
Definition suspended_ok (t : list event) : list Z :=
  omap (λ e, match e with EvSuspend p true _ => Some p | _ => None end) t.

(** What reaches the operator: the dialogs, in order. *)
Definition shown (t : list event) : list event :=
  List.filter (λ e, match e with
                    | EvShowInfo _ _ | EvShowWarning _ | EvShowError _
                    | EvAskYesNo _ _ _ => true
                    | _ => false
                    end) t.

(** The "Resumed" dialog that follows the resume attempts [t]: shown when
    at least one of them succeeded, with their number. *)
Definition resumed_report (t : list event) : list event :=
  let resumed := length (omap (λ e, match e with EvResume p true => Some p | _ => None end) t) in
  if (0 <? resumed)%nat then [EvShowInfo "Resumed" resumed] else [].

(** The pids whose resume succeeded, in order. *)
Definition resumed_ok (t : list event) : list Z :=
  omap (λ e, match e with EvResume p true => Some p | _ => None end) t.

(** How the wait before the resumes can go, with the call it makes and
    the time that passes: no wait at all, a sleep that returns, or a sleep
    that raises. *)
Inductive waited (max : Q) (dt : Py.pyfloat) : list event -> option Q -> Prop :=
| NoWait : Py.flt (Py.Finite 0) dt = false -> waited max dt [] (Some 0%Q)
| Slept q : Py.flt (Py.Finite 0) dt = true -> sleep_duration max dt = Some q ->
            waited max dt [EvSleep q] (Some q)
| SleepRaised : Py.flt (Py.Finite 0) dt = true -> sleep_duration max dt = None ->
                waited max dt [EvSleepRaises dt] None.

(** *** Sample environments *)

(** Every call succeeds, the operator answers yes, and [time.sleep] takes
    what fits in 63 bits of nanoseconds. *)
Definition env_ok : Env :=
  {| write_outcome := λ _ _, WriteOk; remove_ok := λ _, true;
     suspend_ok := λ _ _, true; resume_ok := λ _ _, true;
     ask := λ _ _, Some true; sleep_max := 9223372036 |}.

(** As [env_ok], but the state file cannot be opened for writing. *)
Definition env_unwritable : Env :=
  {| write_outcome := λ _ _, OpenFails; remove_ok := λ _, true;
     suspend_ok := λ _ _, true; resume_ok := λ _ _, true;
     ask := λ _ _, Some true; sleep_max := 9223372036 |}.

(** As [env_ok], but [json.dump] fails after the file was truncated. *)
Definition env_dump_fails : Env :=
  {| write_outcome := λ _ _, DumpFails; remove_ok := λ _, true;
     suspend_ok := λ _ _, true; resume_ok := λ _ _, true;
     ask := λ _ _, Some true; sleep_max := 9223372036 |}.

(** As [env_ok], but the operator answers no. *)
Definition env_declines : Env :=
  {| write_outcome := λ _ _, WriteOk; remove_ok := λ _, true;
     suspend_ok := λ _ _, true; resume_ok := λ _ _, true;
     ask := λ _ _, Some false; sleep_max := 9223372036 |}.

(** A fresh application at time [now] over the state file [d]. *)
Definition init (e : Env) (now : Q) (d : option file_content) : State :=
  {| env := e; clock := now; disk := d; trace := []; active_suspended := None |}.

End Suspend.

(** ** More Python text primitives *)

Module PyText.

(** [s.startswith(p)] *)
Fixpoint startswith (s p : string) : bool :=
  match p with
  | EmptyString => true
  | String c p' =>
      match s with
      | EmptyString => false
      | String d s' => if decide (c = d) then startswith s' p' else false
      end
  end.

(** [q in s] on strings: [q] occurs in [s] as a substring. *)
Fixpoint contains (s q : string) : bool :=
  if startswith s q then true
  else match s with
       | EmptyString => false
       | String _ s' => contains s' q
       end.

(** The value of a decimal digit, [None] for any other character. *)
Definition digit_val (c : ascii) : option Z :=
  let n := nat_of_ascii c in
  if ((48 <=? n)%nat && (n <=? 57)%nat)%bool then Some (Z.of_nat n - 48) else None.

(** [s.isdigit()]: not empty, and nothing but digits. *)
Fixpoint all_digits (s : string) : bool :=
  match s with
  | EmptyString => true
  | String c s' =>
      match digit_val c with
      | Some _ => all_digits s'
      | None => false
      end
  end.

Definition isdigit (s : string) : bool :=
  match s with
  | EmptyString => false
  | _ => all_digits s
  end.

(** The digits of an [int(...)] literal: decimal digits, with single
    underscores allowed between two digits.  [prev] tells whether the
    character before was a digit. *)
Fixpoint int_digits (prev : bool) (acc : Z) (s : string) : option Z :=
  match s with
  | EmptyString => if prev then Some acc else None
  | String c s' =>
      match digit_val c with
      | Some d => int_digits true (acc * 10 + d) s'
      | None =>
          if (prev && bool_decide (c = "_"%char))%bool then
            match s' with
            | EmptyString => None
            | String c' _ =>
                match digit_val c' with
                | Some _ => int_digits false acc s'
                | None => None
                end
            end
          else None
      end
  end.

(** [int(s)] on a string: surrounding whitespace is dropped, a sign may
    lead; [None] stands for [ValueError]. *)
Definition int_of_str (s : string) : option Z :=
  match Py.strip s with
  | String "-" b => Z.opp <$> int_digits false 0 b
  | String "+" b => int_digits false 0 b
  | t => int_digits false 0 t
  end.

(** [s.split()]: the words between runs of whitespace.  [cur] is the word
    being read. *)
Fixpoint split_go (cur : string) (s : string) : list string :=
  match s with
  | EmptyString => match cur with EmptyString => [] | _ => [cur] end
  | String c s' =>
      if Py.isspace c then
        match cur with
        | EmptyString => split_go EmptyString s'
        | _ => cur :: split_go EmptyString s'
        end
      else split_go (cur +:+ String c EmptyString) s'
  end.

Definition split (s : string) : list string := split_go EmptyString s.

End PyText.

(** ** The rows of the tree and the pids read back from them *)

Module Tree.

(** What tkinter hands back for a cell: the string that was stored, or,
    when the string looks like a number, the number itself. *)
Inductive tkval :=
| TkStr (s : string)
| TkInt (n : Z).

(** [str(v or "")] *)
Definition str_or_empty (v : tkval) : string :=
  match v with
  | TkStr s => s
  | TkInt 0 => EmptyString
  | TkInt n => Py.str n
  end.

(** A child row: its text and its "pids" column (the other columns are
    formatted numbers that nothing reads back). *)
Record child_row := { row_text : tkval; row_pids : tkval }.

(** The child row inserted for one pid (lines 452-462):
    [text=f"PID {pid}"], first value [str(pid)]. *)
Definition child_row_of (pid : Z) : child_row :=
  {| row_text := TkStr ("PID " +:+ Py.str pid); row_pids := TkStr (Py.str pid) |}.

(** The child rows inserted under the parent row of a group. *)
Definition child_rows (p : Agg.group) : list child_row :=
  child_row_of <$> Agg.pids p.

(** The loop of lines 184-196 (and 525-536) for one child row: the pid it
    contributes, if any. *)
Definition pid_of_row (child : child_row) : option Z :=
  let pid_val := str_or_empty (row_pids child) in
  if PyText.isdigit pid_val then PyText.int_of_str pid_val
  else
    let text := str_or_empty (row_text child) in
    if PyText.startswith (Py.lower text) "pid" then
      match PyText.split text with
      | _ :: w :: _ => PyText.int_of_str w
      | _ => None
      end
    else None.

(** [pid_list] as collected from the child rows of the selected parent. *)
Definition collect_pids (children : list child_row) : list Z :=
  omap pid_of_row children.

(** [on_notification_click(process_name)]: the index of the first
    top-level row whose text equals the name when both are lower-cased;
    that row is selected, focused and opened. *)
Fixpoint on_notification_click (process_name : string) (rows : list string)
  : option nat :=
  match rows with
  | [] => None
  | text :: rest =>
      if decide (Py.lower text = Py.lower process_name) then Some 0%nat
      else S <$> on_notification_click process_name rest
  end.

End Tree.

(** ** Ending a group: [end_selected_task] *)

Module Terminate.

(** The calls made while a group is ended, with their outcome. *)
Inductive event :=
| EvTerminate (pid : Z) (ok : bool)
| EvKill (pid : Z) (ok : bool)
| EvShowWarning (message : string)
| EvAskYesNo (count : nat) (answer : bool)
| EvShowResult (killed : nat)
| EvRefresh.

(** The environment: whether [terminate()] and [kill()] go through, and
    what the operator answers, given the history so far. *)
Record Env := {
  terminate_ok : list event -> Z -> bool;
  kill_ok : list event -> Z -> bool;
  confirm : list event -> bool
}.

(** The loop of lines 545-555 from the history [hist]: the history
    afterwards and the count [killed]. *)
Fixpoint terminate_each (e : Env) (pid_list : list Z) (hist : list event) (killed : nat)
  : list event * nat :=
  match pid_list with
  | [] => (hist, killed)
  | pid :: rest =>
      let ok := terminate_ok e hist pid in
      let hist1 := hist ++ [EvTerminate pid ok] in
      if ok then terminate_each e rest hist1 (S killed)
      else
        let ok' := kill_ok e hist1 pid in
        let hist2 := hist1 ++ [EvKill pid ok'] in
        terminate_each e rest hist2 (if ok' then S killed else killed)
  end.

(** [end_selected_task()], from the history [hist]; [selection] is as in
    [stop_selected_task].  Returns the history afterwards. *)
Definition end_selected_task (e : Env) (selection : option (list Z)) (hist : list event)
  : list event :=
  match selection with
  | None => hist ++ [EvShowWarning "Please select a process/group to end."]
  | Some [] => hist ++ [EvShowWarning "Could not determine PIDs to terminate."]
  | Some pid_list =>
      let ans := confirm e hist in
      let hist1 := hist ++ [EvAskYesNo (length pid_list) ans] in
      if ans then
        let '(hist2, killed) := terminate_each e pid_list hist1 0%nat in
        hist2 ++ [EvShowResult killed; EvRefresh]
      else hist1
  end.

(** The pids on which [terminate()] was called, those on which [kill()]
    was called, and those on which one of the two went through. *)
Definition terminated (t : list event) : list Z :=
  omap (λ ev, match ev with EvTerminate p _ => Some p | _ => None end) t.

Definition killed_hard (t : list event) : list Z :=
  omap (λ ev, match ev with EvKill p _ => Some p | _ => None end) t.

Definition ended (t : list event) : list Z :=
  omap (λ ev, match ev with
              | EvTerminate p true | EvKill p true => Some p
              | _ => None
              end) t.

(** The pids whose [terminate()] raised. *)
Definition terminate_failed (t : list event) : list Z :=
  omap (λ ev, match ev with EvTerminate p false => Some p | _ => None end) t.

End Terminate.

(** ** Searching: [search_process] *)

Module Search.

(** The test applied to one group (lines 504-510): the query occurs in the
    lower-cased display name, or in the decimal form of one of the pids. *)
Definition matches (query : string) (p : Agg.group) : bool :=
  (PyText.contains (Py.lower (Agg.display_name p)) query
   || existsb (λ pid, PyText.contains (Py.str pid) query) (Agg.pids p))%bool.

(** What [search_process] ends with: a call of [display_processes] on a
    list, or the "Not Found" dialog. *)
Inductive outcome :=
| Display (processes : list Agg.group)
| NotFound (query : string).

(** [search_process()], with [entry] the text of the search box. *)
Definition search_process (entry : string) (all_processes : list Agg.group) : outcome :=
  let query := Py.lower (Py.strip entry) in
  match query with
  | EmptyString => Display all_processes
  | _ =>
      match List.filter (matches query) all_processes with
      | [] => NotFound query
      | filtered => Display filtered
      end
  end.

(** The alert set after a search: [display_processes] runs on what is
    displayed, and nothing runs when nothing is found. *)
Definition alerted_after_search
    (alerted : gset string) (limit_entry : option Q)
    (entry : string) (all_processes : list Agg.group) : gset string :=
  match search_process entry all_processes with
  | Display l => Alert.alerted_names (Alert.display_processes alerted limit_entry l)
  | NotFound _ => alerted
  end.

(** A group with the fields that a search and the alerts read; the other
    numbers are zero. *)
Definition group_named (name : string) (pids : list Z) (memory : Q) : Agg.group :=
  {| Agg.key := name; Agg.display_name := name; Agg.pids := pids; Agg.cpu := 0;
     Agg.memory := memory; Agg.power := 0; Agg.network := 0; Agg.per_pid := ∅ |}.

End Search.

(** ** The trend chart samples: [update_graph] *)

Module Graph.

(** One tick of [update_graph] on [self.cpu_data] and [self.mem_data].
    [reading] is the pair read from [psutil.cpu_percent] and
    [psutil.virtual_memory().percent], [None] when one of them raises
    (nothing is appended then).  Beyond 60 samples the oldest is popped
    from both lists. *)
Definition update_graph (data : list Q * list Q) (reading : option (Q * Q))
  : list Q * list Q :=
  match reading with
  | None => data
  | Some (cpu, mem) =>
      let cpu_data := data.1 ++ [cpu] in
      let mem_data := data.2 ++ [mem] in
      if (60 <? length cpu_data)%nat then (tail cpu_data, tail mem_data)
      else (cpu_data, mem_data)
  end.

(** The ticks of a session, from empty lists. *)
Definition run (readings : list (option (Q * Q))) : list Q * list Q :=
  fold_left update_graph readings ([], []).

End Graph.

(** * Properties *)

(** ** Python primitives *)

Section PyFacts.

Lemma py_max_Qmax (a b : Q) : (Py.max a b == Qmax a b)%Q.
Proof.
  unfold Py.max. destruct (Qlt_le_dec a b) as [Hlt | Hle].
  - symmetry. apply Q.max_r. now apply Qlt_le_weak.
  - symmetry. now apply Q.max_l.
Qed.

Lemma py_lt_true (a b : Q) : Py.lt a b = true <-> (a < b)%Q.
Proof.
  unfold Py.lt. destruct (Qlt_le_dec a b) as [Hlt | Hle]; split; intros H;
    try done. exfalso. now apply (Qlt_not_le a b).
Qed.

Lemma py_lt_false (a b : Q) : Py.lt a b = false <-> (b <= a)%Q.
Proof.
  unfold Py.lt. destruct (Qlt_le_dec a b) as [Hlt | Hle]; split; intros H;
    try done. exfalso. now apply (Qlt_not_le a b).
Qed.

End PyFacts.

(** ** Network throughput *)

Section NetFacts.

Import Net.

Lemma kbps_state_update lni pid io now :
  snd (_get_network_kbps_for_pid lni pid (Some io) now) !! pid
  = Some (Py.or_default (read_bytes io) 0 + Py.or_default (write_bytes io) 0, now).
Proof. simpl. apply lookup_insert_eq. Qed.

Lemma kbps_nonneg lni pid io now :
  (0 <= fst (_get_network_kbps_for_pid lni pid io now))%Q.
Proof.
  destruct io as [io|]; simpl; [|apply Qle_refl].
  rewrite py_max_Qmax. apply Q.le_max_r.
Qed.

(** C8. With readable I/O counters, [_get_network_kbps_for_pid] returns
    exactly [0] for a pid with no earlier sample, and otherwise
    [max(0, (current - previous) / max(elapsed, 0.001) / 1024)], where
    "previous" is the byte total and the time of the previous sample of
    that pid: every call stores its own total and time as the new
    baseline of the pid and leaves the other pids alone, so the next call
    for the pid is measured against this one, whatever the map held
    before.  In particular a delta of 100000 bytes over one second gives
    97.65625 KB/s, within 0.01 of 97.66. *)
Theorem network_kbps_formula
    (lni : gmap Z (Z * Q)) (pid : Z) (io io' : io_counters) (now now' : Q) :
  let total := Py.or_default (read_bytes io) 0 + Py.or_default (write_bytes io) 0 in
  let total' := Py.or_default (read_bytes io') 0 + Py.or_default (write_bytes io') 0 in
  let first := _get_network_kbps_for_pid lni pid (Some io) now in
  let second := _get_network_kbps_for_pid first.2 pid (Some io') now' in
  let kbps := first.1 in
  let kbps' := second.1 in
  match lni !! pid with
  | None => kbps = 0%Q
  | Some (last_bytes, last_time) =>
      (kbps == spec_kbps total last_bytes (now - last_time))%Q
      ∧ (total - last_bytes = 100000 → (now - last_time == 1)%Q →
         (kbps == 3125 # 32)%Q ∧ (Qabs (kbps - (9766 # 100)) < 1 # 100)%Q)
  end
  ∧ first.2 = <[pid := (total, now)]> lni
  ∧ (kbps' == spec_kbps total' total (now' - now))%Q
  ∧ (total' - total = 100000 → (now' - now == 1)%Q →
     (kbps' == 3125 # 32)%Q ∧ (Qabs (kbps' - (9766 # 100)) < 1 # 100)%Q)
  ∧ second.2 = <[pid := (total', now')]> (<[pid := (total, now)]> lni).
Proof.
  assert (Hone : ∀ (m : gmap Z (Z * Q)) (i : io_counters) (t : Q) last_bytes last_time,
            m !! pid = Some (last_bytes, last_time) →
            let tot := Py.or_default (read_bytes i) 0 + Py.or_default (write_bytes i) 0 in
            let k := (_get_network_kbps_for_pid m pid (Some i) t).1 in
            (k == spec_kbps tot last_bytes (t - last_time))%Q
            ∧ (tot - last_bytes = 100000 → (t - last_time == 1)%Q →
               (k == 3125 # 32)%Q ∧ (Qabs (k - (9766 # 100)) < 1 # 100)%Q)).
  { intros m i t last_bytes last_time Hl tot k. subst k.
    unfold _get_network_kbps_for_pid. fold tot. rewrite Hl. cbn [fst].
    set (k := Py.max _ 0).
    assert (Hspec : (k == spec_kbps tot last_bytes (t - last_time))%Q).
    { subst k. unfold spec_kbps, Py.float. rewrite py_max_Qmax, Q.max_comm.
      now rewrite (py_max_Qmax (t - last_time) EPSILON). }
    split; [exact Hspec|]. intros Hd Hdt.
    assert (Hv : (k == 3125 # 32)%Q).
    { rewrite Hspec. unfold spec_kbps. rewrite Hd, Hdt. vm_compute. reflexivity. }
    split; [exact Hv|]. rewrite Hv. vm_compute. reflexivity. }
  intros total total' first second kbps kbps'.
  assert (Hmap : first.2 = <[pid := (total, now)]> lni) by reflexivity.
  assert (Hbase : first.2 !! pid = Some (total, now)).
  { rewrite Hmap. apply lookup_insert_eq. }
  split; [|split; [exact Hmap|]].
  - destruct (lni !! pid) as [[last_bytes last_time]|] eqn:Hl.
    + exact (Hone lni io now last_bytes last_time Hl).
    + subst kbps first. unfold _get_network_kbps_for_pid. now rewrite Hl.
  - destruct (Hone first.2 io' now' total now Hbase) as [Hs Hv].
    split; [exact Hs|]. split; [exact Hv|].
    subst second. now rewrite Hmap.
Qed.

(** Three polls of pid 4242, one second apart: no baseline, then 100000
    more bytes, then 50000 more.  The third is measured against the
    second: 50000 / 1024 KB/s. *)
Lemma network_kbps_formula_witness :
  let io1 := {| read_bytes := Some 7000; write_bytes := Some 500 |} in
  let io2 := {| read_bytes := Some 87000; write_bytes := Some 20500 |} in
  let io3 := {| read_bytes := Some 127000; write_bytes := Some 30500 |} in
  let r1 := _get_network_kbps_for_pid ∅ 4242 (Some io1) 10 in
  let r2 := _get_network_kbps_for_pid r1.2 4242 (Some io2) 11 in
  let r3 := _get_network_kbps_for_pid r2.2 4242 (Some io3) 12 in
  r1.1 = 0%Q
  ∧ (r2.1 == 3125 # 32)%Q ∧ (Qabs (r2.1 - (9766 # 100)) < 1 # 100)%Q
  ∧ r2.2 = <[4242 := (107500, 11%Q)]> (<[4242 := (7500, 10%Q)]> ∅)
  ∧ (r3.1 == 3125 # 64)%Q.
Proof.
  intros io1 io2 io3 r1 r2 r3.
  pose proof (network_kbps_formula ∅ 4242 io1 io2 10 11) as H1.
  pose proof (network_kbps_formula r1.2 4242 io2 io3 11 12) as H2.
  cbn zeta in H1, H2. rewrite lookup_empty in H1.
  destruct H1 as (Hk1 & _ & _ & Hk2 & Hm2).
  destruct H2 as (_ & _ & Hk3 & _).
  split; [exact Hk1|]. split; [exact (proj1 (Hk2 eq_refl ltac:(reflexivity)))|].
  split; [exact (proj2 (Hk2 eq_refl ltac:(reflexivity)))|].
  split; [exact Hm2|].
  apply (Qeq_trans _ _ _ Hk3). vm_compute. reflexivity.
Defined.

End NetFacts.

(** ** Grouping and summing *)

Section AggFacts.

Import Agg.

Implicit Types (d : list (string * group)) (k : string) (g : group).

Lemma dict_get_None k d : dict_get k d = None ↔ k ∉ d.*1.
Proof.
  induction d as [|[k' g] d IH]; cbn [dict_get].
  - split; [intros _; apply not_elem_of_nil | done].
  - rewrite fmap_cons, not_elem_of_cons. cbn [fst].
    case_decide as Hk; subst.
    + split; [done|]. now intros [? _].
    + rewrite IH. split; [intros H; split; [congruence | done] | tauto].
Qed.

Lemma dict_get_elem_of k g d : dict_get k d = Some g → (k, g) ∈ d.
Proof.
  induction d as [|[k' g'] d IH]; simpl; [done|].
  case_decide as Hk; subst.
  - intros [= ->]. apply elem_of_cons. now left.
  - intros H. apply elem_of_cons. right. now apply IH.
Qed.

Lemma elem_of_dict_get k g d : NoDup d.*1 → (k, g) ∈ d → dict_get k d = Some g.
Proof.
  induction d as [|[k' g'] d IH]; simpl; intros Hnd Hin.
  - now apply elem_of_nil in Hin.
  - apply NoDup_cons in Hnd as [Hk' Hnd].
    apply elem_of_cons in Hin as [[= -> ->] | Hin].
    + now rewrite decide_True.
    + rewrite decide_False; [now apply IH|].
      intros ->. apply Hk'. apply list_elem_of_fmap. now exists (k, g).
Qed.

Lemma dict_get_alter f k k' d :
  dict_get k' (dict_alter f k d)
  = if decide (k' = k) then f <$> dict_get k d else dict_get k' d.
Proof.
  induction d as [|[k0 g0] d IH]; simpl.
  - now case_decide.
  - destruct (decide (k0 = k)) as [-> | Hne]; simpl.
    + destruct (decide (k = k')) as [<- | Hne'].
      * now rewrite decide_True.
      * rewrite decide_False by done. done.
    + destruct (decide (k0 = k')) as [-> | Hne'].
      * now rewrite decide_False.
      * exact IH.
Qed.

Lemma dict_alter_keys f k d : (dict_alter f k d).*1 = d.*1.
Proof.
  induction d as [|[k0 g0] d IH]; [done|]. cbn [dict_alter].
  case_decide; rewrite !fmap_cons; cbn [fst]; [done | now rewrite IH].
Qed.

Lemma dict_get_app k d1 d2 :
  dict_get k (d1 ++ d2)
  = match dict_get k d1 with Some g => Some g | None => dict_get k d2 end.
Proof.
  induction d1 as [|[k0 g0] d1 IH]; simpl; [done|]. now case_decide.
Qed.

(** One step of the loop, seen through [dict_get]: only the entry under
    [k] changes, and it is created first when missing. *)
Lemma dict_get_step f k g0 k' d :
  dict_get k' (dict_alter f k (dict_setdefault k g0 d))
  = if decide (k' = k) then Some (f (default g0 (dict_get k d))) else dict_get k' d.
Proof.
  rewrite dict_get_alter. unfold dict_setdefault.
  destruct (dict_get k d) as [g|] eqn:Hk; simpl.
  - rewrite Hk. done.
  - rewrite !dict_get_app, Hk. cbn [dict_get].
    destruct (decide (k = k)) as [_ | ?]; [|done].
    destruct (decide (k' = k)) as [-> | Hk']; [done|].
    destruct (dict_get k' d); [done|]. now rewrite decide_False.
Qed.

Lemma dict_step_keys_NoDup f k g0 d :
  NoDup d.*1 → NoDup (dict_alter f k (dict_setdefault k g0 d)).*1.
Proof.
  intros Hnd. rewrite dict_alter_keys. unfold dict_setdefault.
  destruct (dict_get k d) eqn:Hk; [done|].
  rewrite fmap_app. apply NoDup_app. split; [done|]. split.
  - intros x Hx Hin. apply list_elem_of_singleton in Hin as ->.
    now apply dict_get_None in Hk.
  - apply NoDup_singleton.
Qed.

Lemma sum_detail_frame (f : pid_detail → Q) p dt (m : gmap Z pid_detail) (l : list Z) :
  p ∉ l → ∀ acc,
  fold_left (λ acc q, (acc + from_option f 0 (<[p:=dt]> m !! q))%Q) l acc
  = fold_left (λ acc q, (acc + from_option f 0 (m !! q))%Q) l acc.
Proof.
  induction l as [|q l IH]; intros Hp acc; [done|].
  apply not_elem_of_cons in Hp as [Hne Hp]. cbn [fold_left].
  rewrite lookup_insert_ne by done. now apply IH.
Qed.

Lemma sum_detail_add (f : pid_detail → Q) p dt g :
  p ∉ pids g → sum_detail f (add_to_group p dt g) = (sum_detail f g + f dt)%Q.
Proof.
  intros Hp. unfold sum_detail. cbn [add_to_group pids per_pid].
  rewrite fold_left_app. cbn [fold_left]. rewrite lookup_insert_eq. cbn [from_option].
  now rewrite sum_detail_frame.
Qed.

Lemma sums_ok_new k dn : sums_ok (new_group k dn).
Proof.
  unfold sums_ok, sum_detail. cbn. repeat split.
  intros p Hp. now apply elem_of_nil in Hp.
Qed.

Lemma sums_ok_add p dt g : sums_ok g → p ∉ pids g → sums_ok (add_to_group p dt g).
Proof.
  intros (Hc & Hm & Hpw & Hn & Hdom) Hp. unfold sums_ok.
  rewrite !sum_detail_add by done. cbn [add_to_group cpu memory power network pids per_pid].
  rewrite <- Hc, <- Hm, <- Hpw, <- Hn. repeat split.
  intros q Hq. apply elem_of_app in Hq as [Hq | Hq].
  - destruct (decide (p = q)) as [-> | Hne];
      [rewrite lookup_insert_eq; eauto | rewrite lookup_insert_ne by done; auto].
  - apply list_elem_of_singleton in Hq as ->. rewrite lookup_insert_eq. eauto.
Qed.

Lemma live_snoc_dead l s : cpu_percent s = None → live (l ++ [s]) = live l.
Proof.
  intros Hc. unfold live. rewrite filter_app, filter_cons_False, filter_nil, app_nil_r.
  - done.
  - rewrite Hc. now intros [? ?].
Qed.

Lemma live_snoc_live l s : is_Some (cpu_percent s) → live (l ++ [s]) = live l ++ [s].
Proof.
  intros Hc. unfold live. now rewrite filter_app, filter_cons_True, filter_nil.
Qed.

Lemma pids_under_snoc k l s :
  is_Some (cpu_percent s) →
  pids_under k (l ++ [s])
  = pids_under k l ++ (if decide (group_key s = k) then [pid s] else []).
Proof.
  intros Hc. unfold pids_under. rewrite live_snoc_live, filter_app, fmap_app by done.
  f_equal. case_decide.
  - now rewrite filter_cons_True.
  - now rewrite filter_cons_False.
Qed.

Lemma pids_under_subseteq k l p : p ∈ pids_under k l → p ∈ pid <$> l.
Proof.
  unfold pids_under, live. intros (s & -> & Hs)%list_elem_of_fmap.
  apply list_elem_of_filter in Hs as [_ Hs]. apply list_elem_of_filter in Hs as [_ Hs].
  now apply list_elem_of_fmap_2.
Qed.

Lemma NoDup_snoc_pid l s :
  NoDup (pid <$> l ++ [s]) → NoDup (pid <$> l) ∧ pid s ∉ pid <$> l.
Proof.
  rewrite fmap_app. intros (Hl & Hdisj & _)%NoDup_app. split; [done|].
  intros Hin. apply (Hdisj _ Hin). cbn. apply elem_of_cons. now left.
Qed.

Lemma inv_nil : inv [] [].
Proof. split; [constructor|]. intros k. reflexivity. Qed.

(** A sample that could not be read changes nothing. *)
Lemma inv_skip l d s : cpu_percent s = None → inv l d → inv (l ++ [s]) d.
Proof.
  intros Hc [Hnd Hinv]. split; [done|]. intros k. specialize (Hinv k).
  unfold pids_under in *. rewrite live_snoc_dead by done.
  destruct (dict_get k d) as [g|]; [|done].
  destruct Hinv as (Hk & Hp & Hne & Hs & Hsum).
  repeat (split; [done|]). intros Hnd'. apply Hsum.
  now apply NoDup_snoc_pid in Hnd' as [? _].
Qed.

(** A sample that was read is appended to the aggregate under its key,
    which is created first when this is the first sample under it. *)
Lemma inv_add l d s c net :
  cpu_percent s = Some c →
  inv l d →
  inv (l ++ [s])
      (dict_alter
         (add_to_group (pid s)
            {| d_cpu := c; d_memory := mem_mb_of s;
               d_power := _estimate_power_mw c; d_network := net |})
         (group_key s)
         (dict_setdefault (group_key s)
            (new_group (group_key s) (raw_name_of s)) d)).
Proof.
  intros Hc [Hnd Hinv]. split; [now apply dict_step_keys_NoDup|].
  assert (Hlive : is_Some (cpu_percent s)) by (rewrite Hc; eauto).
  set (dt := Build_pid_detail _ _ _ _).
  intros k. rewrite dict_get_step, pids_under_snoc by done.
  destruct (decide (k = group_key s)) as [-> | Hk].
  - (* the entry under the key of [s] *)
    rewrite decide_True by done. specialize (Hinv (group_key s)).
    set (g0 := default (new_group (group_key s) (raw_name_of s))
                 (dict_get (group_key s) d)).
    assert (Hg0 : key g0 = group_key s ∧ pids g0 = pids_under (group_key s) l
                  ∧ (NoDup (pid <$> l) →
                     sums_ok g0
                     ∧ ∀ s', s' ∈ live l → group_key s' = group_key s → entry_ok s' g0)).
    { subst g0. destruct (dict_get (group_key s) d) as [g|]; cbn [default].
      - destruct Hinv as (? & ? & _ & _ & ?). done.
      - cbn [new_group key pids]. split; [done|]. split; [done|]. intros _.
        split; [apply sums_ok_new|]. intros s' Hs' Hks'. exfalso.
        unfold pids_under in Hinv. apply fmap_nil_inv in Hinv.
        eapply (filter_nil_not_elem_of _ _ s'); [exact Hinv | exact Hks' | exact Hs']. }
    destruct Hg0 as (Hkey & Hpids & Hsums).
    cbn [add_to_group key pids]. split; [done|]. split; [now rewrite Hpids|].
    split; [now destruct (pids g0)|]. split.
    + subst g0. destruct (dict_get (group_key s) d) as [g|]; cbn [default].
      * destruct Hinv as (_ & _ & _ & (s' & Hs' & Hks' & Hdn) & _).
        exists s'. rewrite live_snoc_live by done. split; [|done].
        apply elem_of_app. now left.
      * exists s. rewrite live_snoc_live by done. split; [|done].
        apply elem_of_app. right. now apply list_elem_of_singleton.
    + intros Hnd'. apply NoDup_snoc_pid in Hnd' as [Hndl Hfresh].
      destruct (Hsums Hndl) as [Hok Hent].
      assert (Hnotin : pid s ∉ pids g0).
      { rewrite Hpids. intros Hin. now apply Hfresh, (pids_under_subseteq (group_key s)). }
      split; [now apply sums_ok_add|].
      intros s' Hs' Hks'. rewrite live_snoc_live in Hs' by done.
      apply elem_of_app in Hs' as [Hs' | Hs'].
      * destruct (Hent s' Hs' Hks') as (dt' & Hl & Hrest).
        exists dt'. split; [|exact Hrest]. cbn [add_to_group per_pid].
        rewrite lookup_insert_ne; [done|]. intros Heq. apply Hfresh. rewrite Heq.
        apply list_elem_of_fmap_2. unfold live in Hs'.
        now apply list_elem_of_filter in Hs' as [_ ?].
      * apply list_elem_of_singleton in Hs' as ->. exists dt.
        cbn [add_to_group per_pid]. rewrite lookup_insert_eq. subst dt. done.
  - (* every other entry *)
    destruct (decide (group_key s = k)) as [Heq | _]; [now subst|]. rewrite app_nil_r.
    specialize (Hinv k). destruct (dict_get k d) as [g|]; [|done].
    destruct Hinv as (Hkey & Hp & Hne & (s' & Hs' & Hks' & Hdn) & Hsum).
    repeat (split; [done|]). split.
    + exists s'. rewrite live_snoc_live by done. split; [|done].
      apply elem_of_app. now left.
    + intros Hnd'. apply NoDup_snoc_pid in Hnd' as [Hndl _].
      destruct (Hsum Hndl) as [Hok Hent]. split; [done|].
      intros s'' Hs'' Hks''. apply Hent; [|done].
      rewrite live_snoc_live in Hs'' by done.
      apply elem_of_app in Hs'' as [Hs'' | Hs'']; [done|].
      apply list_elem_of_singleton in Hs'' as ->. congruence.
Qed.

Lemma process_one_inv now l d lni s :
  inv l d → inv (l ++ [s]) (process_one now (d, lni) s).1.
Proof.
  intros Hinv. unfold process_one.
  destruct (cpu_percent s) as [c|] eqn:Hc; [|now apply inv_skip].
  destruct (Net._get_network_kbps_for_pid lni (pid s) (io s) now) as [net lni'].
  cbn [fst]. now apply inv_add.
Qed.

Lemma collect_inv now lni samples : inv samples (collect now lni samples).1.
Proof.
  unfold collect. induction samples as [|s l IH] using rev_ind; [apply inv_nil|].
  rewrite fold_left_app. cbn [fold_left].
  destruct (fold_left (process_one now) l ([], lni)) as [d lni'].
  now apply process_one_inv.
Qed.

Lemma insert_by_cpu_perm x l : insert_by_cpu x l ≡ₚ x :: l.
Proof.
  induction l as [|y l IH]; cbn [insert_by_cpu]; [done|].
  destruct (Qlt_le_dec (cpu x) (cpu y)); [|done].
  rewrite IH. apply Permutation_swap.
Qed.

Lemma sort_by_cpu_desc_perm l : sort_by_cpu_desc l ≡ₚ l.
Proof.
  unfold sort_by_cpu_desc. induction l as [|x l IH]; cbn [foldr]; [done|].
  now rewrite insert_by_cpu_perm, IH.
Qed.

(** The groups returned by [update_processes_list] are the values of the
    dict built by the loop. *)
Lemma output_groups lni samples now g :
  g ∈ (update_processes_list lni samples now).1
  ↔ dict_get (key g) (collect now lni samples).1 = Some g.
Proof.
  unfold update_processes_list.
  pose proof (collect_inv now lni samples) as [Hnd Hinv].
  destruct (collect now lni samples) as [d lni']. cbn [fst] in *.
  rewrite sort_by_cpu_desc_perm. change (map snd d) with (d.*2). split.
  - intros ([k g'] & -> & Hin)%list_elem_of_fmap. cbn [snd].
    pose proof (elem_of_dict_get _ _ _ Hnd Hin) as Hget.
    specialize (Hinv k). rewrite Hget in Hinv. destruct Hinv as [<- _]. exact Hget.
  - intros Hget. apply dict_get_elem_of in Hget.
    apply list_elem_of_fmap. now exists (key g, g).
Qed.

(** C6. Over an enumeration in which every pid occurs once, each group
    returned by [update_processes_list] has a non-empty pid list, a
    per-pid entry for every member, and cpu, memory, power and network
    sums equal to the sums of those entries over its pids; the entry of a
    member holds that sample's own memory, cpu and power values. *)
Theorem aggregation_sum_invariant
    (lni : gmap Z (Z * Q)) (samples : list proc_sample) (now : Q) (g : group) :
  NoDup (pid <$> samples) →
  g ∈ (update_processes_list lni samples now).1 →
  memory g = sum_detail d_memory g
  ∧ cpu g = sum_detail d_cpu g
  ∧ power g = sum_detail d_power g
  ∧ network g = sum_detail d_network g
  ∧ pids g ≠ []
  ∧ (∀ p, p ∈ pids g → is_Some (per_pid g !! p))
  ∧ (∀ s, s ∈ samples → is_Some (cpu_percent s) → group_key s = key g →
          pid s ∈ pids g ∧ entry_ok s g).
Proof.
  intros Hnd Hg. apply output_groups in Hg.
  pose proof (collect_inv now lni samples) as [_ Hinv].
  specialize (Hinv (key g)). rewrite Hg in Hinv.
  destruct Hinv as (_ & Hpids & Hne & _ & Hsum).
  destruct (Hsum Hnd) as [(Hc & Hm & Hp & Hn & Hdom) Hent].
  repeat (split; [done|]). intros s Hs Hlive Hk.
  assert (Hin : s ∈ live samples) by (now apply list_elem_of_filter).
  split; [|now apply Hent].
  rewrite Hpids. unfold pids_under. apply list_elem_of_fmap_2.
  now apply list_elem_of_filter.
Qed.

Lemma aggregation_sum_invariant_witness :
  let samples := [sample 10 "Chrome.exe" 1048576 5; sample 11 "chrome.exe" 2097152 7;
                  sample 12 "helper" 524288 1] in
  ∃ g, head (update_processes_list ∅ samples 100).1 = Some g
       ∧ memory g = sum_detail d_memory g ∧ pids g ≠ [].
Proof.
  intros samples.
  assert (Hhead : ∃ g, head (update_processes_list ∅ samples 100).1 = Some g)
    by (vm_compute; eauto).
  destruct Hhead as [g Hhead]. exists g. split; [exact Hhead|].
  destruct (aggregation_sum_invariant ∅ samples 100 g) as (Hm & _ & _ & _ & Hne & _).
  - apply (bool_decide_unpack _). vm_compute. exact I.
  - eapply head_Some_elem_of, Hhead.
  - split; [exact Hm | exact Hne].
Defined.

Example aggregation_example :
  let samples := [sample 10 "Chrome.exe" 1048576 5; sample 11 "chrome.exe" 2097152 7;
                  sample 12 "helper" 524288 1] in
  (λ g, (key g, display_name g, pids g, Qred (cpu g), Qred (memory g)))
    <$> (update_processes_list ∅ samples 100).1
  = [("chrome.exe", "Chrome.exe", [10; 11], 12%Q, 3%Q);
     ("helper_12", "helper", [12], 1%Q, (1 # 2)%Q)].
Proof. vm_compute. reflexivity. Qed.

Implicit Types (a b : string) (c : ascii).

Lemma chars_app a b :
  list_ascii_of_string (a +:+ b) = list_ascii_of_string a ++ list_ascii_of_string b.
Proof. induction a as [|c a IH]; [done|]. cbn. now rewrite <- IH. Qed.

(** Decimal digits are neither the underscore nor the letter e. *)
Local Abbreviation plain c := (c ≠ "_"%char ∧ c ≠ "e"%char) (only parsing).

Lemma pretty_N_char_plain (x : N) : plain (pretty_N_char x).
Proof. unfold pretty_N_char. repeat case_match; split; discriminate. Qed.

Lemma pretty_N_go_chars (x : N) : ∀ a c,
  c ∈ list_ascii_of_string (pretty_N_go x a) → plain c ∨ c ∈ list_ascii_of_string a.
Proof.
  induction (N.lt_wf_0 x) as [x _ IH]; intros a c Hc.
  destruct (decide (x = 0)%N) as [-> | Hx].
  - rewrite pretty_N_go_0 in Hc. now right.
  - rewrite pretty_N_go_step in Hc by lia.
    apply IH in Hc; [|apply N.div_lt; lia].
    destruct Hc as [Hc | Hc]; [now left|].
    cbn in Hc. apply elem_of_cons in Hc as [-> | Hc]; [|now right].
    left. apply pretty_N_char_plain.
Qed.

Lemma str_chars (z : Z) c : c ∈ list_ascii_of_string (Py.str z) → plain c.
Proof.
  assert (HN : ∀ n : N, c ∈ list_ascii_of_string (pretty n) → plain c).
  { intros n. unfold pretty, pretty_N. case_decide as Hn.
    - cbn. intros ->%list_elem_of_singleton. split; discriminate.
    - intros [Hp | Hp]%pretty_N_go_chars; [done|]. now apply elem_of_nil in Hp. }
  unfold Py.str, pretty, pretty_Z. destruct z as [|p|p].
  - cbn. intros ->%list_elem_of_singleton. split; discriminate.
  - exact (HN (N.pos p)).
  - change (c ∈ list_ascii_of_string ("-" +:+ pretty (N.pos p)) → plain c).
    rewrite chars_app. cbn. intros [-> | Hp]%elem_of_cons; [split; discriminate|].
    now apply (HN (N.pos p)).
Qed.

Lemma endswith_suffix a b : Py.endswith a b = true → ∃ pre, a = pre +:+ b.
Proof.
  induction a as [|c a IH]; cbn [Py.endswith].
  - destruct (String.eqb "" b) eqn:E; [|done]. apply String.eqb_eq in E as <-.
    now exists "".
  - destruct (String.eqb (String c a) b) eqn:E.
    + apply String.eqb_eq in E as <-. now exists "".
    + intros (pre & ->)%IH. now exists (String c pre).
Qed.

(** A key built from a name, an underscore and a pid never looks like an
    executable name. *)
Lemma joined_key_not_exe a (z : Z) :
  Py.endswith (a +:+ "_" +:+ Py.str z) ".exe" = false.
Proof.
  destruct (Py.endswith _ _) eqn:E; [|done]. exfalso.
  apply endswith_suffix in E as (pre & E).
  apply (f_equal list_ascii_of_string) in E.
  rewrite (chars_app a), (chars_app pre) in E.
  apply (f_equal last) in E. rewrite !last_app in E.
  change (last (list_ascii_of_string ".exe")) with (Some "e"%char) in E.
  change (list_ascii_of_string ("_" +:+ Py.str z))
    with ("_"%char :: list_ascii_of_string (Py.str z)) in E.
  destruct (last (("_"%char :: list_ascii_of_string (Py.str z)))) as [c|] eqn:Hl.
  - injection E as ->. apply last_Some_elem_of in Hl.
    apply elem_of_cons in Hl as [Hl | Hl]; [discriminate|].
    apply str_chars in Hl as [_ Hl]. done.
  - apply last_None in Hl. discriminate.
Qed.

(** The pid can be read back from a joined key. *)
Lemma joined_key_inj a a' (z z' : Z) :
  a +:+ "_" +:+ Py.str z = a' +:+ "_" +:+ Py.str z' → a = a' ∧ z = z'.
Proof.
  assert (Hno : ∀ (w : Z) b b', Py.str w ≠ b +:+ "_" +:+ b').
  { intros w b b' Heq.
    assert (Hin : "_"%char ∈ list_ascii_of_string (Py.str w)).
    { rewrite Heq, !chars_app. apply elem_of_app. right. cbn.
      apply elem_of_cons. now left. }
    apply str_chars in Hin as [Hin _]. done. }
  revert a'. induction a as [|c a IH]; intros [|c' a'] Heq.
  - injection Heq as Heq. split; [done|]. now apply (inj pretty).
  - injection Heq as <- Heq. now apply Hno in Heq.
  - injection Heq as -> Heq. symmetry in Heq. now apply Hno in Heq.
  - injection Heq as -> Heq. apply IH in Heq as [-> ->]. done.
Qed.

Implicit Types (s : proc_sample).

Lemma group_key_exe s :
  Py.endswith (Py.lower (raw_name_of s)) ".exe" = true →
  group_key s = Py.lower (raw_name_of s).
Proof. unfold group_key. cbn zeta. now intros ->. Qed.

Lemma group_key_other s :
  Py.endswith (Py.lower (raw_name_of s)) ".exe" = false →
  group_key s = Py.lower (raw_name_of s) +:+ "_" +:+ Py.str (pid s).
Proof. unfold group_key. cbn zeta. now intros ->. Qed.

(** A sample shares the key of an executable-named sample exactly when
    their lower-cased names agree. *)
Lemma same_key_exe s s' :
  Py.endswith (Py.lower (raw_name_of s)) ".exe" = true →
  group_key s' = group_key s ↔ Py.lower (raw_name_of s') = Py.lower (raw_name_of s).
Proof.
  intros Hexe. rewrite (group_key_exe s Hexe). split.
  - intros Hk. destruct (Py.endswith (Py.lower (raw_name_of s')) ".exe") eqn:E.
    + now rewrite group_key_exe in Hk.
    + rewrite group_key_other in Hk by done. rewrite <- Hk in Hexe.
      now rewrite joined_key_not_exe in Hexe.
  - intros Hn. rewrite group_key_exe; [done|]. now rewrite Hn.
Qed.

(** A sample shares the key of a sample that is not executable-named only
    if it has the same pid. *)
Lemma same_key_other s s' :
  Py.endswith (Py.lower (raw_name_of s)) ".exe" = false →
  group_key s' = group_key s → pid s' = pid s.
Proof.
  intros Hother. rewrite (group_key_other s Hother). intros Hk.
  destruct (Py.endswith (Py.lower (raw_name_of s')) ".exe") eqn:E.
  - rewrite group_key_exe in Hk by done. rewrite Hk in E.
    now rewrite joined_key_not_exe in E.
  - rewrite group_key_other in Hk by done. now apply joined_key_inj in Hk as [_ ?].
Qed.

Lemma NoDup_pid_inj (l : list proc_sample) s s' :
  NoDup (pid <$> l) → s ∈ l → s' ∈ l → pid s = pid s' → s = s'.
Proof.
  induction l as [|x l IH]; intros Hnd Hs Hs' Hp; [now apply elem_of_nil in Hs|].
  rewrite fmap_cons in Hnd. apply NoDup_cons in Hnd as [Hx Hnd].
  apply elem_of_cons in Hs as [-> | Hs]; apply elem_of_cons in Hs' as [-> | Hs'].
  - done.
  - exfalso. apply Hx. rewrite Hp. now apply list_elem_of_fmap_2.
  - exfalso. apply Hx. rewrite <- Hp. now apply list_elem_of_fmap_2.
  - now apply IH.
Qed.

Lemma NoDup_all_eq {A} (l : list A) (x : A) :
  NoDup l → x ∈ l → (∀ y, y ∈ l → y = x) → l = [x].
Proof.
  intros Hnd Hx Hall. destruct l as [|y l]; [now apply elem_of_nil in Hx|].
  assert (y = x) as -> by (apply Hall, elem_of_cons; now left).
  f_equal. destruct l as [|z l]; [done|]. exfalso.
  apply NoDup_cons in Hnd as [Hnotin _]. apply Hnotin.
  assert (z = x) as -> by (apply Hall, elem_of_cons; right; apply elem_of_cons; now left).
  apply elem_of_cons. now left.
Qed.

(** C7. Over an enumeration in which every pid occurs once, a sample
    that was read lies in exactly one returned group, the one under its
    key.  When its lower-cased name ends in ".exe" the key is that
    lower-cased name and the group holds the pids of all read samples with
    the same lower-cased name; otherwise the key is the lower-cased name,
    an underscore and the pid, and the group holds this pid alone. *)
Theorem grouping_rule
    (lni : gmap Z (Z * Q)) (samples : list proc_sample) (now : Q) s :
  let name_lower := Py.lower (raw_name_of s) in
  let out := (update_processes_list lni samples now).1 in
  NoDup (pid <$> samples) →
  s ∈ samples →
  is_Some (cpu_percent s) →
  ∃ g, g ∈ out
       ∧ pid s ∈ pids g
       ∧ (∀ g', g' ∈ out → pid s ∈ pids g' → g' = g)
       ∧ if Py.endswith name_lower ".exe"
         then key g = name_lower
              ∧ pids g = pid <$> filter (λ s', Py.lower (raw_name_of s') = name_lower)
                                        (live samples)
         else key g = name_lower +:+ "_" +:+ Py.str (pid s)
              ∧ pids g = [pid s].
Proof.
  cbn zeta. intros Hnd Hs Hlive.
  assert (Hsl : s ∈ live samples) by (now apply list_elem_of_filter).
  assert (Hunder : pid s ∈ pids_under (group_key s) samples).
  { unfold pids_under. apply list_elem_of_fmap_2. now apply list_elem_of_filter. }
  pose proof (collect_inv now lni samples) as [Hkeys Hinv].
  pose proof (Hinv (group_key s)) as Hk.
  destruct (dict_get (group_key s) (collect now lni samples).1) as [g|] eqn:Hget;
    [|rewrite Hk in Hunder; now apply elem_of_nil in Hunder].
  destruct Hk as (Hkey & Hpids & _).
  exists g. split; [apply output_groups; now rewrite Hkey|].
  split; [now rewrite Hpids|]. split.
  - intros g' Hg' Hin. apply output_groups in Hg'.
    pose proof (Hinv (key g')) as Hk'. rewrite Hg' in Hk'.
    destruct Hk' as (_ & Hpids' & _). rewrite Hpids' in Hin.
    unfold pids_under in Hin. apply list_elem_of_fmap in Hin as (s' & Hp & Hs').
    apply list_elem_of_filter in Hs' as [Hks' Hs'l].
    assert (s = s') as <-.
    { apply (NoDup_pid_inj samples); try done.
      unfold live in Hs'l. now apply list_elem_of_filter in Hs'l as [_ ?]. }
    rewrite <- Hks', Hget in Hg'. congruence.
  - destruct (Py.endswith (Py.lower (raw_name_of s)) ".exe") eqn:E.
    + split; [now rewrite Hkey, group_key_exe|].
      rewrite Hpids. unfold pids_under. f_equal.
      apply list_filter_iff. intros s'. now apply same_key_exe.
    + split; [now rewrite Hkey, group_key_other|].
      rewrite Hpids. apply NoDup_all_eq.
      * unfold pids_under, live. refine (sublist_NoDup _ (pid <$> samples) Hnd _).
        apply fmap_sublist. etrans; apply sublist_filter.
      * exact Hunder.
      * intros p Hp. unfold pids_under in Hp.
        apply list_elem_of_fmap in Hp as (s' & -> & Hs').
        apply list_elem_of_filter in Hs' as [Hks' _]. now apply same_key_other.
Qed.

(** Two helpers that share the generic name "svc" and two instances of
    one executable. *)
Lemma grouping_rule_witness :
  let samples := [sample 10 "Chrome.exe" 1048576 5; sample 20 "svc" 1 1;
                  sample 11 "chrome.exe" 2097152 7; sample 21 "svc" 1 1] in
  let out := (update_processes_list ∅ samples 100).1 in
  (∃ g, g ∈ out ∧ key g = "svc_20" ∧ pids g = [20])
  ∧ (∃ g, g ∈ out ∧ key g = "chrome.exe" ∧ pids g = [10; 11]).
Proof.
  intros samples out.
  assert (Hnd : NoDup (pid <$> samples)) by (apply (bool_decide_unpack _); vm_compute; exact I).
  split.
  - destruct (grouping_rule ∅ samples 100 (sample 20 "svc" 1 1) Hnd)
      as (g & Hg & _ & _ & Hk & Hp).
    + apply list_elem_of_lookup. exists 1%nat. reflexivity.
    + vm_compute. eauto.
    + exists g. split; [exact Hg|]. split; [exact Hk | exact Hp].
  - destruct (grouping_rule ∅ samples 100 (sample 10 "Chrome.exe" 1048576 5) Hnd)
      as (g & Hg & _ & _ & Hk & Hp).
    + apply list_elem_of_lookup. exists 0%nat. reflexivity.
    + vm_compute. eauto.
    + exists g. split; [exact Hg|]. split; [exact Hk | exact Hp].
Defined.

End AggFacts.

(** ** High-memory flagging and alert de-duplication *)

Section AlertFacts.

Import Alert.

Implicit Types (A : gset string) (entry : option Q) (ps : list Agg.group).

Lemma is_high_spec (memory_limit mem_sum : Q) :
  is_high memory_limit mem_sum = true <-> (0 < memory_limit)%Q ∧ (memory_limit < mem_sum)%Q.
Proof. unfold is_high. rewrite andb_true_iff, !py_lt_true. tauto. Qed.

Lemma memory_limit_of_positive (limit_mb : Q) :
  (0 < limit_mb)%Q -> memory_limit_of (Some limit_mb) = limit_mb.
Proof.
  intros Hpos. simpl. destruct (Py.lt limit_mb 0) eqn:E; [|done].
  apply py_lt_true in E. exfalso. apply (Qlt_irrefl 0). now apply Qlt_trans with limit_mb.
Qed.

Lemma memory_limit_of_nonpositive (limit_mb : Q) :
  (limit_mb <= 0)%Q -> (memory_limit_of (Some limit_mb) <= 0)%Q.
Proof.
  intros Hle. simpl. destruct (Py.lt limit_mb 0); [apply Qle_refl | exact Hle].
Qed.

(** The flag of a group under the limit typed by the operator. *)
Lemma flag_iff (limit_mb mem_sum : Q) :
  is_high (memory_limit_of (Some limit_mb)) mem_sum = true
  <-> (0 < limit_mb)%Q ∧ (limit_mb < mem_sum)%Q.
Proof.
  rewrite is_high_spec. split.
  - intros [Hpos Hlt]. destruct (Qlt_le_dec 0 limit_mb) as [Hp | Hn].
    + rewrite memory_limit_of_positive in Hlt by done. done.
    + exfalso. apply memory_limit_of_nonpositive in Hn.
      now apply (Qlt_not_le _ _ Hpos).
  - intros [Hpos Hlt]. now rewrite memory_limit_of_positive.
Qed.

Lemma high_in_cons memory_limit p ps :
  high_in memory_limit (p :: ps)
  = if is_high memory_limit (Agg.memory p)
    then {[Agg.display_name p]} ∪ high_in memory_limit ps
    else high_in memory_limit ps.
Proof. unfold high_in. simpl. now destruct (is_high _ _). Qed.

(** What the loop of [display_processes] does to an arbitrary loop state. *)
Lemma display_loop memory_limit ps : ∀ st,
  let st' := fold_left (display_one memory_limit) ps st in
  current_high_names st' = current_high_names st ∪ high_in memory_limit ps
  ∧ alerted_names st' = alerted_names st ∪ high_in memory_limit ps
  ∧ rows st' = rows st ++ map (λ p, (p, is_high memory_limit (Agg.memory p))) ps
  ∧ toasts st' = toasts st ++ new_toasts memory_limit (alerted_names st) ps.
Proof.
  induction ps as [|p ps IH]; intros st; cbn zeta.
  - unfold high_in. simpl. rewrite !app_nil_r. set_solver.
  - cbn [fold_left]. specialize (IH (display_one memory_limit st p)).
    cbn zeta in IH. destruct IH as (Hc & Ha & Hr & Ht).
    rewrite Hc, Ha, Hr, Ht, high_in_cons. clear Hc Ha Hr Ht.
    cbn [new_toasts map]. unfold display_one.
    destruct (is_high memory_limit (Agg.memory p)) eqn:Hh.
    + destruct (decide (Agg.display_name p ∈ alerted_names st)) as [Hal | Hal];
        cbn [current_high_names alerted_names toasts rows];
        rewrite <- !app_assoc; simpl; set_solver.
    + cbn [current_high_names alerted_names toasts rows].
      rewrite <- !app_assoc. done.
Qed.

Lemma new_toasts_names memory_limit ps : ∀ A n,
  n ∈ map toast_name (new_toasts memory_limit A ps)
  ↔ n ∈ high_in memory_limit ps ∧ n ∉ A.
Proof.
  induction ps as [|p ps IH]; intros A n.
  - unfold high_in. simpl. set_solver.
  - rewrite high_in_cons. cbn [new_toasts].
    destruct (is_high memory_limit (Agg.memory p)) eqn:Hh.
    + destruct (decide (Agg.display_name p ∈ A)) as [Hal | Hal].
      * rewrite IH. set_solver.
      * cbn [map toast_name]. rewrite elem_of_cons, IH.
        destruct (decide (n = Agg.display_name p)) as [-> | Hne]; set_solver.
    + apply IH.
Qed.

Lemma new_toasts_NoDup memory_limit ps : ∀ A,
  NoDup (map toast_name (new_toasts memory_limit A ps)).
Proof.
  induction ps as [|p ps IH]; intros A; cbn [new_toasts].
  - constructor.
  - destruct (is_high memory_limit (Agg.memory p)); [|apply IH].
    destruct (decide (Agg.display_name p ∈ A)) as [Hal | Hal]; [apply IH|].
    cbn [map toast_name]. constructor; [|apply IH].
    rewrite new_toasts_names. set_solver.
Qed.


Lemma high_names_high_in entry ps :
  high_names entry ps = high_in (memory_limit_of entry) ps.
Proof. reflexivity. Qed.

End AlertFacts.

Section AlertTheorems.

Import Alert.

(** C4. Every row is tagged high exactly when the configured limit is
    positive and the group's memory sum exceeds it; under a limit that is
    zero or negative no row is tagged, no name is found high and no toast
    is shown, whatever the memory sums are. *)
Theorem high_flag_iff_over_positive_limit
    (alerted : gset string) (limit_mb : Q) (processes : list Agg.group) :
  let out := display_processes alerted (Some limit_mb) processes in
  Forall2 (λ p row, row.1 = p
                    ∧ (row.2 = true ↔ (0 < limit_mb)%Q ∧ (limit_mb < Agg.memory p)%Q))
          processes (rows out)
  ∧ ((limit_mb <= 0)%Q →
     Forall (λ row, row.2 = false) (rows out)
     ∧ current_high_names out = ∅ ∧ toasts out = []).
Proof.
  cbn zeta. unfold display_processes. cbn [rows current_high_names toasts].
  pose proof (display_loop (memory_limit_of (Some limit_mb)) processes
                {| current_high_names := ∅; alerted_names := alerted;
                   toasts := []; rows := [] |}) as (Hc & _ & Hr & Ht).
  cbn [current_high_names alerted_names toasts rows] in Hc, Hr, Ht.
  rewrite Hr, Hc, Ht. clear Hr Hc Ht. cbn [app].
  assert (Hrows : Forall2 (λ p row, row.1 = p
                    ∧ (row.2 = true ↔ (0 < limit_mb)%Q ∧ (limit_mb < Agg.memory p)%Q))
            processes
            (map (λ p, (p, is_high (memory_limit_of (Some limit_mb)) (Agg.memory p)))
                 processes)).
  { induction processes as [|p ps IH]; constructor; [|exact IH].
    split; [reflexivity|]. cbn [snd]. apply flag_iff. }
  split; [exact Hrows|]. intros Hle.
  assert (Hoff : ∀ m, is_high (memory_limit_of (Some limit_mb)) m = false).
  { intros m. destruct (is_high _ m) eqn:E; [|done].
    apply flag_iff in E as [Hpos _]. exfalso. now apply (Qlt_not_le _ _ Hpos). }
  repeat split.
  - apply Forall_forall. intros row Hin. apply list_elem_of_fmap in Hin as (p & -> & _).
    apply Hoff.
  - unfold high_in. clear Hrows.
    induction processes as [|p ps IH]; [set_solver|].
    simpl. rewrite Hoff. rewrite union_empty_l_L in IH |- *. exact IH.
  - clear Hrows. generalize alerted.
    induction processes as [|p ps IH]; intros A; [done|].
    cbn [new_toasts]. rewrite Hoff. apply IH.
Qed.

(** Two groups under a 200 MB limit, then the same groups with the limit
    switched off. *)
Lemma high_flag_iff_over_positive_limit_witness :
  let g (n : string) (m : Q) :=
    {| Agg.key := n; Agg.display_name := n; Agg.pids := [1]; Agg.cpu := 0;
       Agg.memory := m; Agg.power := 0; Agg.network := 0; Agg.per_pid := ∅ |} in
  let out := display_processes ∅ (Some 0%Q) [g "a.exe" 500%Q; g "b.exe" 100%Q] in
  Forall (λ row, row.2 = false) (rows out)
  ∧ current_high_names out = ∅ ∧ toasts out = [].
Proof.
  intros g out.
  apply (high_flag_iff_over_positive_limit ∅ 0%Q [g "a.exe" 500%Q; g "b.exe" 100%Q]).
  apply Qle_refl.
Defined.

(** C5. One display cycle from the alert set [alerted]: the toasts shown
    carry pairwise distinct names, a name is notified exactly when its
    group is high and the name was not already alerted, and the alert set
    left behind is exactly the set of names that are high now.  Hence a
    name that is high in two consecutive cycles is not notified again in
    the second. *)
Theorem alert_dedup_across_cycles
    (alerted : gset string) (entry : option Q) (processes : list Agg.group) :
  let out := display_processes alerted entry processes in
  NoDup (map toast_name (toasts out))
  ∧ (∀ n, n ∈ map toast_name (toasts out)
          ↔ n ∈ high_names entry processes ∧ n ∉ alerted)
  ∧ alerted_names out = high_names entry processes
  ∧ (∀ entry' processes' n,
       n ∈ high_names entry processes →
       n ∉ map toast_name
             (toasts (display_processes (alerted_names out) entry' processes'))).
Proof.
  assert (Hone : ∀ A e ps,
    let o := display_processes A e ps in
    NoDup (map toast_name (toasts o))
    ∧ (∀ n, n ∈ map toast_name (toasts o) ↔ n ∈ high_names e ps ∧ n ∉ A)
    ∧ alerted_names o = high_names e ps).
  { intros A e ps. cbn zeta. unfold display_processes, high_names.
    cbn [toasts alerted_names].
    pose proof (display_loop (memory_limit_of e) ps
                  {| current_high_names := ∅; alerted_names := A;
                     toasts := []; rows := [] |}) as (Hc & Ha & _ & Ht).
    cbn [current_high_names alerted_names toasts rows] in Hc, Ha, Ht.
    rewrite Hc, Ha, Ht. cbn [app]. split; [apply new_toasts_NoDup|].
    split; [intros n; apply new_toasts_names|].
    apply set_eq. intros n.
    rewrite elem_of_difference, elem_of_filter, !elem_of_union.
    destruct (decide (n ∈ high_in (memory_limit_of e) ps)) as [Hn | Hn].
    - split; [done|]. intros _. split; [now right|]. intros [Hno _]. apply Hno. now right.
    - split; [|done]. intros [[HA | HH] Hno]; [|done].
      exfalso. apply Hno. split; [|now left].
      intros [Hemp | HH]; [|done]. now apply not_elem_of_empty in Hemp. }
  cbn zeta. destruct (Hone alerted entry processes) as (Hnd & Hin & Hal).
  cbn zeta in Hnd, Hin, Hal.
  split; [exact Hnd|]. split; [exact Hin|]. split; [exact Hal|].
  intros entry' processes' n Hn Habs.
  destruct (Hone (alerted_names (display_processes alerted entry processes))
              entry' processes') as (_ & Hin' & _).
  cbn zeta in Hin'. apply Hin' in Habs as [_ Hnot]. apply Hnot.
  rewrite Hal. exact Hn.
Qed.

(** Three cycles over one group named "db.exe": above the limit twice in
    a row, below it once, above it again. *)
Lemma alert_dedup_across_cycles_witness :
  let g (m : Q) :=
    {| Agg.key := "db.exe"; Agg.display_name := "db.exe"; Agg.pids := [7]; Agg.cpu := 0;
       Agg.memory := m; Agg.power := 0; Agg.network := 0; Agg.per_pid := ∅ |} in
  "db.exe" ∉ map toast_name
    (toasts (display_processes
               (alerted_names (display_processes ∅ (Some 200%Q) [g 300%Q]))
               (Some 200%Q) [g 350%Q])).
Proof.
  intros g.
  apply (alert_dedup_across_cycles ∅ (Some 200%Q) [g 300%Q]).
  vm_compute. set_solver.
Defined.

End AlertTheorems.

(** ** Durable suspend / resume *)

Section SuspendFacts.

Import Suspend.

Implicit Types (s : State) (evs : list event).

Lemma extend_nil s : extend s [] = s.
Proof. destruct s. unfold extend. simpl. now rewrite app_nil_r. Qed.

Lemma extend_extend s evs1 evs2 : extend (extend s evs1) evs2 = extend s (evs1 ++ evs2).
Proof. unfold extend. simpl. now rewrite <- app_assoc. Qed.

(** Unfold the state monad and the primitive calls. *)
Ltac run_M :=
  cbv beta iota zeta delta
    [mbind M_bind mret M_ret get emit set_disk set_active time_time
     write_file os_suspend os_resume askyesno].

Ltac run_M_in H :=
  cbv beta iota zeta delta
    [mbind M_bind mret M_ret get emit set_disk set_active time_time
     write_file os_suspend os_resume askyesno] in H.

Lemma suspend_attempts_app evs1 evs2 :
  suspend_attempts (evs1 ++ evs2) = suspend_attempts evs1 ++ suspend_attempts evs2.
Proof. apply omap_app. Qed.

Lemma resume_attempts_app evs1 evs2 :
  resume_attempts (evs1 ++ evs2) = resume_attempts evs1 ++ resume_attempts evs2.
Proof. apply omap_app. Qed.

Lemma suspended_ok_app evs1 evs2 :
  suspended_ok (evs1 ++ evs2) = suspended_ok evs1 ++ suspended_ok evs2.
Proof. apply omap_app. Qed.

Lemma resumed_ok_app evs1 evs2 :
  resumed_ok (evs1 ++ evs2) = resumed_ok evs1 ++ resumed_ok evs2.
Proof. apply omap_app. Qed.

Lemma shown_app evs1 evs2 : shown (evs1 ++ evs2) = shown evs1 ++ shown evs2.
Proof. apply List.filter_app. Qed.

(** *** Kinds of calls *)

Lemma suspends_suspend (file : option file_content) evs :
  Forall (λ e, ∃ pid ok, e = EvSuspend pid ok file) evs →
  Forall (λ e, is_suspend e = true) evs.
Proof. intros H. eapply Forall_impl; [exact H|]. now intros e (p & ok & ->). Qed.

Lemma suspends_only evs :
  Forall (λ e, is_suspend e = true) evs →
  resume_attempts evs = [] ∧ shown evs = []
  ∧ Forall (λ e, is_sleep e = false) evs ∧ Forall (λ e, is_prompt e = false) evs.
Proof.
  induction 1 as [|e l He _ (IH1 & IH2 & IH3 & IH4)]; [repeat split; constructor|].
  destruct e; try discriminate He.
  change (EvSuspend pid ok file :: l) with ([EvSuspend pid ok file] ++ l).
  rewrite resume_attempts_app, shown_app, IH1, IH2.
  repeat split; try done; constructor; done.
Qed.

Lemma resumes_only evs :
  Forall (λ e, ∃ p ok, e = EvResume p ok) evs →
  suspend_attempts evs = [] ∧ suspended_ok evs = [] ∧ shown evs = []
  ∧ Forall (λ e, is_suspend e = false) evs
  ∧ Forall (λ e, is_sleep e = false) evs ∧ Forall (λ e, is_prompt e = false) evs.
Proof.
  induction 1 as [|e l (p & ok & ->) _ (IH1 & IH2 & IH3 & IH4 & IH5 & IH6)];
    [repeat split; constructor|].
  change (EvResume p ok :: l) with ([EvResume p ok] ++ l).
  rewrite suspend_attempts_app, suspended_ok_app, shown_app, IH1, IH2, IH3.
  repeat split; try done; constructor; done.
Qed.

Lemma no_suspend_attempts evs :
  Forall (λ e, is_suspend e = false) evs → suspend_attempts evs = [] ∧ suspended_ok evs = [].
Proof.
  induction 1 as [|e l He _ [IH1 IH2]]; [done|].
  change (e :: l) with ([e] ++ l). rewrite suspend_attempts_app, suspended_ok_app, IH1, IH2.
  destruct e; try discriminate He; done.
Qed.

Lemma resumed_report_cases evs :
  resumed_report evs = []
  ∨ resumed_report evs = [EvShowInfo "Resumed" (length (resumed_ok evs))].
Proof.
  unfold resumed_report. cbn zeta. fold (resumed_ok evs).
  destruct (0 <? length (resumed_ok evs))%nat; eauto.
Qed.

Lemma resumed_report_if evs :
  resumed_report evs
  = if (0 <? length (resumed_ok evs))%nat
    then [EvShowInfo "Resumed" (length (resumed_ok evs))] else [].
Proof. reflexivity. Qed.

(** *** The loops *)

(** The suspend loop only adds suspend attempts, one per pid and in
    order, each made over the state file as the loop found it. *)
Lemma suspend_each_spec pid_list : ∀ acc s, ∃ evs,
  suspend_each pid_list acc s = (acc ++ suspended_ok evs, extend s evs)
  ∧ suspend_attempts evs = pid_list
  ∧ Forall (λ e, ∃ pid ok, e = EvSuspend pid ok (disk s)) evs.
Proof.
  induction pid_list as [|pid rest IH]; intros acc s.
  - exists []. simpl. rewrite app_nil_r, extend_nil. repeat split. constructor.
  - cbn [suspend_each]. run_M.
    set (ok := suspend_ok (env s) (trace s) pid).
    destruct (IH (if ok then acc ++ [pid] else acc) (extend s [EvSuspend pid ok (disk s)]))
      as (evs & Hrun & Hatt & Hall).
    exists (EvSuspend pid ok (disk s) :: evs). rewrite Hrun, extend_extend.
    split; [|split].
    + f_equal. change (EvSuspend pid ok (disk s) :: evs)
        with ([EvSuspend pid ok (disk s)] ++ evs).
      rewrite suspended_ok_app. destruct ok; [now rewrite <- app_assoc | done].
    + change (EvSuspend pid ok (disk s) :: evs) with ([EvSuspend pid ok (disk s)] ++ evs).
      rewrite suspend_attempts_app, Hatt. reflexivity.
    + constructor; [now exists pid, ok | exact Hall].
Qed.

(** The resume loop only adds resume attempts, one per pid and in order,
    counts its successes and touches nothing but the history. *)
Lemma resume_each_count pid_list : ∀ n s, ∃ evs,
  resume_each pid_list n s = ((n + length (resumed_ok evs))%nat, extend s evs)
  ∧ resume_attempts evs = pid_list
  ∧ Forall (λ e, ∃ p ok, e = EvResume p ok) evs.
Proof.
  induction pid_list as [|pid rest IH]; intros n s.
  - exists []. cbn. rewrite extend_nil, Nat.add_0_r. repeat split. constructor.
  - cbn [resume_each]. run_M.
    set (ok := resume_ok (env s) (trace s) pid).
    destruct (IH (if ok then S n else n) (extend s [EvResume pid ok]))
      as (evs & Hrun & Hatt & Hall).
    exists (EvResume pid ok :: evs). rewrite Hrun, extend_extend.
    change (EvResume pid ok :: evs) with ([EvResume pid ok] ++ evs).
    rewrite resumed_ok_app, resume_attempts_app, Hatt, length_app.
    split; [|split].
    + f_equal. destruct ok; cbn; lia.
    + reflexivity.
    + constructor; [now exists pid, ok | done].
Qed.

(** [clear_suspend_state] makes at most one call, [os.remove], and always
    drops the in-memory copy. *)
Lemma clear_suspend_state_spec s :
  ∃ evs d, clear_suspend_state s
           = (tt, {| env := env s; clock := clock s; disk := d;
                     trace := trace s ++ evs; active_suspended := None |})
  ∧ (evs = [] ∧ disk s = None ∧ d = None
     ∨ ∃ ok, evs = [EvRemove ok] ∧ is_Some (disk s)
             ∧ ok = remove_ok (env s) (trace s)
             ∧ d = if ok then None else disk s).
Proof.
  unfold clear_suspend_state. run_M.
  destruct (disk s) as [c|] eqn:Hd; run_M.
  - set (ok := remove_ok (env s) (trace s)).
    exists [EvRemove ok], (if ok then None else Some c).
    split.
    + destruct ok; unfold extend; simpl; rewrite ?Hd; done.
    + right. exists ok. split; [done|]. split; [eauto|]. split; done.
  - exists [], None. split; [|now left].
    now rewrite Hd, app_nil_r.
Qed.

(** [save_suspend_state] makes exactly one call, the write of the record,
    and keeps the in-memory copy only when the write went through. *)
Lemma save_suspend_state_spec pid_list resume_time s :
  let r := {| pids := pid_list; resume_time := resume_time; saved_at := clock s |} in
  let res := write_outcome (env s) (trace s) r in
  save_suspend_state pid_list resume_time s
  = (tt, {| env := env s; clock := clock s;
            disk := match res with
                    | WriteOk => Some (FileRecord r)
                    | OpenFails => disk s
                    | DumpFails => Some FileGarbage
                    end;
            trace := trace s ++ [EvWrite r res];
            active_suspended := match res with
                                | WriteOk => Some r
                                | _ => active_suspended s
                                end |}).
Proof.
  cbn zeta. unfold save_suspend_state. run_M. unfold extend. cbn.
  destruct (write_outcome _ _ _); reflexivity.
Qed.

(** *** The shared tails *)

(** Resume a list of pids, clear the record, report the count when it is
    positive. *)
Lemma resume_and_clear_spec pid_list s :
  ∃ resm clr d,
    resume_and_clear pid_list s
    = (Returned, {| env := env s; clock := clock s; disk := d;
                    trace := trace s ++ resm ++ clr ++ resumed_report resm;
                    active_suspended := None |})
    ∧ resume_attempts resm = pid_list
    ∧ Forall (λ e, ∃ p ok, e = EvResume p ok) resm
    ∧ (clr = [] ∧ disk s = None ∧ d = None
       ∨ ∃ ok, clr = [EvRemove ok] ∧ is_Some (disk s)
               ∧ ok = remove_ok (env s) (trace s ++ resm)
               ∧ d = if ok then None else disk s).
Proof.
  unfold resume_and_clear. run_M.
  destruct (resume_each_count pid_list 0%nat s) as (resm & Hres & Hratt & Hrall).
  rewrite Hres. cbn [Nat.add].
  destruct (clear_suspend_state_spec (extend s resm)) as (clr & d & Hclr & Hcase).
  rewrite Hclr. exists resm, clr, d.
  split; [|split; [done|split; [done|exact Hcase]]].
  rewrite resumed_report_if.
  destruct (0 <? length (resumed_ok resm))%nat; unfold extend; cbn [trace env clock disk];
    rewrite <- ?app_assoc, ?app_nil_r; reflexivity.
Qed.

(** [wait_then_resume]: the wait, and when the sleep did not raise, the
    resumes, the removal and the report. *)
Lemma wait_then_resume_spec pid_list (dt : Py.pyfloat) s :
  ∃ slp w,
    waited (sleep_max (env s)) dt slp w
    ∧ match w with
      | Some q =>
          ∃ resm clr d,
            wait_then_resume pid_list dt s
            = (Returned,
               {| env := env s;
                  clock := match slp with [] => clock s | _ => (clock s + q)%Q end;
                  disk := d;
                  trace := trace s ++ slp ++ resm ++ clr ++ resumed_report resm;
                  active_suspended := None |})
            ∧ resume_attempts resm = pid_list
            ∧ Forall (λ e, ∃ p ok, e = EvResume p ok) resm
            ∧ (clr = [] ∧ disk s = None ∧ d = None
               ∨ ∃ ok, clr = [EvRemove ok] ∧ is_Some (disk s)
                       ∧ ok = remove_ok (env s) (trace s ++ slp ++ resm)
                       ∧ d = if ok then None else disk s)
      | None => wait_then_resume pid_list dt s = (Raised, extend s slp)
      end.
Proof.
  unfold wait_then_resume. run_M.
  destruct (Py.flt (Py.Finite 0) dt) eqn:Hlt.
  - unfold time_sleep.
    destruct (sleep_duration (sleep_max (env s)) dt) as [q|] eqn:Hq.
    + exists [EvSleep q], (Some q). split; [now constructor|].
      match goal with
      | |- context [resume_and_clear _ ?s2] =>
          destruct (resume_and_clear_spec pid_list s2) as (resm & clr & d & Hrun & Hatt & Hall & Hc)
      end.
      rewrite Hrun. exists resm, clr, d. cbn [env clock disk trace] in *.
      rewrite <- !app_assoc in *. done.
    + exists [EvSleepRaises dt], None. split; [now constructor | reflexivity].
  - exists [], (Some 0%Q). split; [now constructor|].
    destruct (resume_and_clear_spec pid_list s) as (resm & clr & d & Hrun & Hatt & Hall & Hc).
    rewrite Hrun. exists resm, clr, d. done.
Qed.

Lemma waited_cases max dt slp w :
  waited max dt slp w →
  shown slp = [] ∧ resume_attempts slp = [] ∧ suspend_attempts slp = []
  ∧ suspended_ok slp = [] ∧ Forall (λ e, is_suspend e = false) slp
  ∧ Forall (λ e, is_prompt e = false) slp
  ∧ (Py.flt (Py.Finite 0) dt = false → slp = [])
  ∧ match w with
    | Some _ => Forall (λ e, ∀ dt', e ≠ EvSleepRaises dt') slp
    | None => slp = [EvSleepRaises dt] ∧ Py.flt (Py.Finite 0) dt = true
    end.
Proof.
  destruct 1 as [Hlt | q Hlt Hq | Hlt Hq]; repeat split; repeat constructor;
    try done; congruence.
Qed.

Lemma cleared_cases (clr : list event) :
  clr = [] ∨ (∃ ok, clr = [EvRemove ok]) →
  shown clr = [] ∧ resume_attempts clr = [] ∧ Forall (λ e, is_suspend e = false) clr
  ∧ Forall (λ e, is_sleep e = false) clr ∧ Forall (λ e, is_prompt e = false) clr
  ∧ Forall (λ e, ∀ dt, e ≠ EvSleepRaises dt) clr.
Proof. intros [-> | (ok & ->)]; repeat split; repeat constructor; done. Qed.

Lemma report_cases (resm : list event) :
  shown (resumed_report resm) = resumed_report resm
  ∧ resume_attempts (resumed_report resm) = []
  ∧ Forall (λ e, is_suspend e = false) (resumed_report resm)
  ∧ Forall (λ e, is_sleep e = false) (resumed_report resm)
  ∧ Forall (λ e, is_prompt e = false) (resumed_report resm)
  ∧ Forall (λ e, ∀ dt, e ≠ EvSleepRaises dt) (resumed_report resm).
Proof.
  rewrite resumed_report_if.
  destruct (0 <? _)%nat; repeat split; repeat constructor; done.
Qed.

(** The scheduler and the delayed resume end with [wait_then_resume]. *)
Lemma delayed_resume_tail (pid_list : list Z) (resume_time : Py.pyfloat) s :
  _delayed_resume_from_persisted pid_list resume_time s
  = wait_then_resume pid_list (Py.fsub resume_time (Py.Finite (clock s))) s.
Proof. reflexivity. Qed.

(** The complete effect of one run of [_suspend_resume_processes]: the
    write of the record, one suspend attempt per pid, the "Stopped"
    dialog, the wait, and, unless the sleep raised, one resume attempt per
    pid that was suspended, the removal of the file when it exists, and the
    "Resumed" dialog when something was resumed. *)
Lemma suspend_resume_run (pid_list : list Z) (seconds : Py.pyfloat) s :
  let rt := Py.fadd (Py.Finite (clock s)) seconds in
  let r := {| pids := pid_list; resume_time := rt; saved_at := clock s |} in
  let res := write_outcome (env s) (trace s) r in
  let disk1 := match res with
               | WriteOk => Some (FileRecord r)
               | OpenFails => disk s
               | DumpFails => Some FileGarbage
               end in
  let act1 := match res with WriteOk => Some r | _ => active_suspended s end in
  let time_left := Py.fsub rt (Py.Finite (clock s)) in
  ∃ susp slp w,
    suspend_attempts susp = pid_list
    ∧ Forall (λ e, ∃ pid ok, e = EvSuspend pid ok disk1) susp
    ∧ waited (sleep_max (env s)) time_left slp w
    ∧ match w with
      | Some q =>
          ∃ resm clr d,
            _suspend_resume_processes pid_list seconds s
            = (Returned,
               {| env := env s;
                  clock := match slp with [] => clock s | _ => (clock s + q)%Q end;
                  disk := d;
                  trace := trace s ++ [EvWrite r res] ++ susp
                             ++ [EvShowInfo "Stopped" (length (suspended_ok susp))]
                             ++ slp ++ resm ++ clr ++ resumed_report resm;
                  active_suspended := None |})
            ∧ resume_attempts resm = suspended_ok susp
            ∧ Forall (λ e, ∃ p ok, e = EvResume p ok) resm
            ∧ (clr = [] ∧ disk1 = None ∧ d = None
               ∨ ∃ ok h, clr = [EvRemove ok] ∧ is_Some disk1 ∧ ok = remove_ok (env s) h
                         ∧ d = if ok then None else disk1)
      | None =>
          _suspend_resume_processes pid_list seconds s
          = (Raised,
             {| env := env s; clock := clock s; disk := disk1;
                trace := trace s ++ [EvWrite r res] ++ susp
                           ++ [EvShowInfo "Stopped" (length (suspended_ok susp))] ++ slp;
                active_suspended := act1 |})
      end.
Proof.
  cbn zeta.
  set (rt := Py.fadd (Py.Finite (clock s)) seconds).
  set (r := {| pids := pid_list; resume_time := rt; saved_at := clock s |}).
  set (res := write_outcome (env s) (trace s) r).
  set (time_left := Py.fsub rt (Py.Finite (clock s))).
  pose proof (save_suspend_state_spec pid_list rt s) as Hsave. cbn zeta in Hsave.
  fold r res in Hsave.
  set (s1 := Build_State _ _ _ _ _) in Hsave.
  destruct (suspend_each_spec pid_list [] s1) as (susp & Hsusp & Hatt & Hall).
  cbn [app] in Hsusp.
  set (s2 := extend s1 (susp ++ [EvShowInfo "Stopped" (length (suspended_ok susp))])).
  assert (Hrun : _suspend_resume_processes pid_list seconds s
                 = wait_then_resume (suspended_ok susp) time_left s2).
  { unfold _suspend_resume_processes, wait_then_resume, resume_and_clear. run_M.
    fold rt. rewrite Hsave, Hsusp. cbn [app]. rewrite extend_extend. reflexivity. }
  destruct (wait_then_resume_spec (suspended_ok susp) time_left s2) as (slp & w & Hw & Hcase).
  exists susp, slp, w. split; [exact Hatt|]. split; [exact Hall|]. split; [exact Hw|].
  rewrite Hrun. destruct w as [q|].
  - destruct Hcase as (resm & clr & d & -> & Hratt & Hrall & Hc).
    exists resm, clr, d. split.
    { subst s2 s1. unfold extend. cbn [env clock disk trace].
      repeat (rewrite <- ?app_assoc; cbn [app]). reflexivity. }
    split; [exact Hratt|]. split; [exact Hrall|].
    destruct Hc as [(-> & Hd & ->) | (ok & -> & Hd & Hok & ->)];
      [left; done | right; eexists ok, _; done].
  - rewrite Hcase. subst s2 s1. unfold extend. cbn [env clock disk trace active_suspended].
    repeat (rewrite <- ?app_assoc; cbn [app]). reflexivity.
Qed.

(** [time_left > 0] holds exactly when [seconds > 0] does. *)
Lemma time_left_positive (now : Q) (seconds : Py.pyfloat) :
  Py.flt (Py.Finite 0) (Py.fsub (Py.fadd (Py.Finite now) seconds) (Py.Finite now))
  = Py.flt (Py.Finite 0) seconds.
Proof.
  destruct seconds as [q| | |]; try reflexivity. cbn.
  destruct (Py.lt 0 q) eqn:E.
  - apply py_lt_true in E. apply py_lt_true. lra.
  - apply py_lt_false in E. apply py_lt_false. lra.
Qed.

(** The calls of a run, seen by what they are: the write, the suspends,
    and then calls none of which suspends; the only dialogs are the two
    counts; the resumes are there unless the sleep raised. *)
Lemma suspend_resume_observed (pid_list : list Z) (seconds : Py.pyfloat) s :
  let rt := Py.fadd (Py.Finite (clock s)) seconds in
  let r := {| pids := pid_list; resume_time := rt; saved_at := clock s |} in
  let res := write_outcome (env s) (trace s) r in
  let disk1 := match res with
               | WriteOk => Some (FileRecord r)
               | OpenFails => disk s
               | DumpFails => Some FileGarbage
               end in
  let act1 := match res with WriteOk => Some r | _ => active_suspended s end in
  ∃ susp rest k m o s',
    _suspend_resume_processes pid_list seconds s = (o, s')
    ∧ trace s' = trace s ++ EvWrite r res :: susp ++ rest
    ∧ suspend_attempts susp = pid_list
    ∧ Forall (λ e, ∃ pid ok, e = EvSuspend pid ok disk1) susp
    ∧ Forall (λ e, is_suspend e = false) rest
    ∧ shown (EvWrite r res :: susp ++ rest)
      = EvShowInfo "Stopped" k :: (if (0 <? m)%nat then [EvShowInfo "Resumed" m] else [])
    ∧ (Py.flt (Py.Finite 0) seconds = false → Forall (λ e, is_sleep e = false) rest)
    ∧ match o with
      | Returned =>
          resume_attempts rest = suspended_ok susp
          ∧ Forall (λ e, ∀ dt, e ≠ EvSleepRaises dt) rest
          ∧ active_suspended s' = None
      | Raised =>
          resume_attempts rest = []
          ∧ (∃ dt, EvSleepRaises dt ∈ rest)
          ∧ Py.flt (Py.Finite 0) seconds = true
          ∧ disk s' = disk1
          ∧ active_suspended s' = act1
      end.
Proof.
  cbn zeta.
  destruct (suspend_resume_run pid_list seconds s) as (susp & slp & w & Hatt & Hall & Hw & Hcase).
  cbn zeta in Hall, Hw, Hcase.
  destruct (waited_cases _ _ _ _ Hw) as (Hs1 & Hs2 & Hs3 & Hs4 & Hs5 & Hs6 & Hs7 & Hs8).
  rewrite time_left_positive in Hs7, Hs8.
  destruct (suspends_only susp (suspends_suspend _ _ Hall)) as (Hu1 & Hu2 & Hu3 & Hu4).
  set (k := length (suspended_ok susp)) in *.
  destruct w as [q|].
  - destruct Hcase as (resm & clr & d & Hrun & Hratt & Hrall & Hc).
    assert (Hc' : clr = [] ∨ ∃ ok, clr = [EvRemove ok]).
    { destruct Hc as [(-> & _) | (ok & h & -> & _)]; eauto. }
    destruct (cleared_cases clr Hc') as (Hc1 & Hc2 & Hc3 & Hc4 & Hc5 & Hc6).
    destruct (report_cases resm) as (Hp1 & Hp2 & Hp3 & Hp4 & Hp5 & Hp6).
    destruct (resumes_only resm Hrall) as (Hr1 & Hr2 & Hr3 & Hr4 & Hr5 & Hr6).
    eexists susp, ([EvShowInfo "Stopped" k] ++ slp ++ resm ++ clr ++ resumed_report resm),
      k, (length (resumed_ok resm)), Returned, _.
    split; [exact Hrun|]. cbn [trace].
    split; [cbn [app]; reflexivity|]. split; [exact Hatt|]. split; [exact Hall|].
    split; [repeat apply Forall_app_2; try done; repeat constructor|].
    split.
    { change (EvWrite ?a ?b :: ?l) with ([EvWrite a b] ++ l).
      rewrite !shown_app, Hu2, Hs1, Hr3, Hc1, Hp1. cbn [app shown List.filter].
      now rewrite resumed_report_if. }
    split.
    { intros Hlt. rewrite (Hs7 Hlt). repeat apply Forall_app_2; try done; repeat constructor. }
    split; [|split; [|reflexivity]].
    + rewrite !resume_attempts_app, Hs2, Hc2, Hp2, Hratt. cbn. apply app_nil_r.
    + repeat apply Forall_app_2; try done; [repeat constructor; done|].
      eapply Forall_impl; [exact Hrall|]. now intros e (p & ok & ->).
  - destruct Hs8 as [-> Hlt].
    eexists susp, ([EvShowInfo "Stopped" k] ++ [EvSleepRaises _]), k, 0%nat, Raised, _.
    split; [exact Hcase|]. cbn [trace disk active_suspended].
    split; [cbn [app]; reflexivity|]. split; [exact Hatt|]. split; [exact Hall|].
    split; [repeat constructor|].
    split.
    { change (EvWrite ?a ?b :: ?l) with ([EvWrite a b] ++ l).
      rewrite !shown_app, Hu2. reflexivity. }
    split; [congruence|].
    split; [reflexivity|]. split; [|done].
    eexists. apply elem_of_app. right. apply list_elem_of_singleton. reflexivity.
Qed.



(** C9, as the code behaves.  When the write of the record fails,
    [_suspend_resume_processes] still attempts the suspend of every pid,
    but nothing tells the caller: the only dialogs are the "Stopped" and
    "Resumed" counts, the in-memory copy [active_suspended] is left as it
    was, and the state file holds no record of this batch. *)
Theorem write_failure_is_swallowed (pid_list : list Z) (seconds : Py.pyfloat) s :
  let r := {| pids := pid_list; resume_time := Py.fadd (Py.Finite (clock s)) seconds;
              saved_at := clock s |} in
  let res := write_outcome (env s) (trace s) r in
  let s_saved := (save_suspend_state pid_list (Py.fadd (Py.Finite (clock s)) seconds) s).2 in
  let s' := (_suspend_resume_processes pid_list seconds s).2 in
  res ≠ WriteOk →
  ∃ rest k m,
    trace s' = trace s ++ EvWrite r res :: rest
    ∧ suspend_attempts rest = pid_list
    ∧ shown (EvWrite r res :: rest)
      = EvShowInfo "Stopped" k :: (if (0 <? m)%nat then [EvShowInfo "Resumed" m] else [])
    ∧ active_suspended s_saved = active_suspended s
    ∧ disk s_saved = match res with DumpFails => Some FileGarbage | _ => disk s end.
Proof.
  cbn zeta. intros Hfail.
  destruct (suspend_resume_observed pid_list seconds s)
    as (susp & rest & k & m & o & s' & Hrun & Htr & Hatt & Hall & Hrest & Hshown & _).
  cbn zeta in Hrun, Htr, Hshown. rewrite Hrun. cbn [snd].
  exists (susp ++ rest), k, m. split; [exact Htr|]. split.
  { rewrite suspend_attempts_app, Hatt, (proj1 (no_suspend_attempts _ Hrest)).
    apply app_nil_r. }
  split; [exact Hshown|].
  rewrite save_suspend_state_spec. cbn [snd active_suspended disk].
  destruct (write_outcome _ _ _); done.
Qed.

(** One pid, one minute, on a disk that refuses the write. *)
Lemma write_failure_is_swallowed_witness :
  let s := init env_unwritable 1000 None in
  let r := {| pids := [100]; resume_time := Py.fadd (Py.Finite (clock s)) (Py.Finite 60);
              saved_at := clock s |} in
  ∃ rest k m,
    trace (_suspend_resume_processes [100] (Py.Finite 60) s).2
    = trace s ++ EvWrite r OpenFails :: rest
    ∧ suspend_attempts rest = [100]
    ∧ shown (EvWrite r OpenFails :: rest)
      = EvShowInfo "Stopped" k :: (if (0 <? m)%nat then [EvShowInfo "Resumed" m] else []).
Proof.
  intros s r.
  destruct (write_failure_is_swallowed [100] (Py.Finite 60) s ltac:(discriminate))
    as (rest & k & m & Htr & Hatt & Hshown & _).
  exists rest, k, m. split; [exact Htr|]. split; [exact Hatt|exact Hshown].
Defined.

(** C9, counterexample.  One pid suspended for a minute, once on a disk
    that refuses the write and once on a disk that takes it: the failed
    write leaves no record and no in-memory copy, the suspend is issued
    all the same, and the operator is shown exactly the same dialogs in
    both runs. *)
Lemma write_failure_not_reported :
  let s_fail :=
    (_suspend_resume_processes [100] (Py.Finite 60) (init env_unwritable 1000 None)).2 in
  let s_ok := (_suspend_resume_processes [100] (Py.Finite 60) (init env_ok 1000 None)).2 in
  let r := {| pids := [100]; resume_time := Py.Finite (1000 + 60); saved_at := 1000%Q |} in
  trace s_fail
  = [EvWrite r OpenFails; EvSuspend 100 true None; EvShowInfo "Stopped" 1;
     EvSleep (1000 + 60 - 1000)%Q; EvResume 100 true; EvShowInfo "Resumed" 1]
  ∧ (save_suspend_state [100] (Py.Finite (1000 + 60)) (init env_unwritable 1000 None)).2
    = extend (init env_unwritable 1000 None) [EvWrite r OpenFails]
  ∧ shown (trace s_fail) = shown (trace s_ok)
  ∧ shown (trace s_fail) = [EvShowInfo "Stopped" 1; EvShowInfo "Resumed" 1].
Proof. vm_compute. repeat split. Qed.

Lemma seconds_of_choice_None choice custom :
  seconds_of_choice choice custom = None
  ↔ choice = "Custom (Minutes)" ∧ custom = None.
Proof.
  unfold seconds_of_choice. repeat case_decide; subst; try done;
    destruct custom; split; try done; intros [? ?]; done.
Qed.




(** [int(x) <= 0] holds exactly below one. *)
Lemma py_int_nonpos (x : Q) : Py.int x <= 0 ↔ (x < 1)%Q.
Proof.
  destruct x as [n d]. unfold Py.int, Qlt. cbn [Qnum Qden].
  rewrite Z.mul_1_r, Z.mul_1_l.
  split.
  - intros Hq. destruct (Z_lt_le_dec n (Z.pos d)) as [Hlt | Hge]; [exact Hlt|].
    exfalso. assert (1 <= n ÷ Z.pos d); [|lia].
    rewrite Z.quot_div_nonneg by lia.
    apply Z.div_le_lower_bound; lia.
  - intros Hlt. destruct (Z_lt_le_dec n 0) as [Hneg | Hpos].
    + assert (H : (- n) ÷ Z.pos d >= 0).
      { rewrite Z.quot_div_nonneg by lia. apply Z_div_ge0; lia. }
      rewrite Z.quot_opp_l in H by lia. lia.
    + rewrite Z.quot_small; lia.
Qed.


(** [resume_pids] followed by the clearing and the report is
    [resume_and_clear]. *)
Lemma resume_pids_tail (pid_list : list Z) s :
  (resumed ← resume_pids pid_list;
   clear_suspend_state;;
   (if (0 <? resumed)%nat then emit (EvShowInfo "Resumed" resumed) else mret tt);;
   mret Returned) s
  = resume_and_clear pid_list s.
Proof. reflexivity. Qed.

(** Start-up recovery over a valid record whose deadline is less than a
    second away (or past): every recorded pid gets its resume attempt at
    once, then the state file is removed; no dialog asks anything. *)
Lemma recovery_overdue (r : SuspensionRecord) (rt : Q) s :
  disk s = Some (FileRecord r) →
  resume_time r = Py.Finite rt →
  (rt - clock s < 1)%Q →
  ∃ resm m ok s',
    check_persisted_suspend_state s = (Returned, s')
    ∧ trace s' = trace s ++ resm ++ [EvRemove ok]
                   ++ (if (0 <? m)%nat then [EvShowInfo "Resumed" m] else [])
    ∧ resume_attempts resm = pids r
    ∧ Forall (λ e, ∃ p b, e = EvResume p b) resm
    ∧ disk s' = (if ok then None else Some (FileRecord r))
    ∧ active_suspended s' = None
    ∧ m = length (resumed_ok resm)
    ∧ clock s' = clock s.
Proof.
  intros Hdisk Hrt Hlt. unfold check_persisted_suspend_state, load_suspend_state. run_M.
  rewrite Hdisk. cbn [dict_resume_time dict_pids]. rewrite Hrt. cbn [Py.fsub Py.fint].
  apply py_int_nonpos, Z.leb_le in Hlt. rewrite Hlt.
  pose proof (resume_pids_tail (pids r) s) as Htail. run_M_in Htail. rewrite Htail.
  destruct (resume_and_clear_spec (pids r) s) as (resm & clr & d & Hrun & Hatt & Hall & Hc).
  rewrite Hrun.
  destruct Hc as [(_ & Hnone & _) | (ok & -> & _ & _ & ->)]; [congruence|].
  exists resm, (length (resumed_ok resm)), ok. eexists. split; [reflexivity|].
  cbn [trace disk active_suspended clock]. rewrite Hdisk, resumed_report_if. done.
Qed.

(** Start-up recovery over a record that passes the validation but whose
    [resume_time] is no finite number: [float()] raises on what is no
    number, [int()] raises on an infinity and on [nan].  The method ends
    there: no call is made and the record stays. *)
Lemma recovery_raises (d : state_dict) s :
  disk s = Some (FileDict d) →
  (∀ rt, dict_resume_time d ≠ Some (Py.Finite rt)) →
  check_persisted_suspend_state s = (Raised, s).
Proof.
  intros Hdisk Hno. unfold check_persisted_suspend_state, load_suspend_state. run_M.
  rewrite Hdisk. destruct (dict_resume_time d) as [[rt| | |]|]; try reflexivity.
  now destruct (Hno rt).
Qed.






(** C10. The remaining wait is [int(resume_time - now)]; for a valid
    record whose deadline is in the future by less than one second this
    is [0], so the record is handled as overdue: every recorded pid gets
    its resume attempt at once, the state file is removed, the in-memory
    copy is dropped, and no prompt is shown. *)
Theorem subsecond_future_is_overdue (r : SuspensionRecord) (rt : Q) s :
  let s' := (check_persisted_suspend_state s).2 in
  disk s = Some (FileRecord r) →
  resume_time r = Py.Finite rt →
  (0 < rt - clock s)%Q →
  (rt - clock s < 1)%Q →
  Py.fint (Py.fsub (resume_time r) (Py.Finite (clock s))) = Some 0
  ∧ Py.int (rt - clock s) = 0
  ∧ ∃ resm m ok,
      trace s' = trace s ++ resm ++ [EvRemove ok]
                   ++ (if (0 <? m)%nat then [EvShowInfo "Resumed" m] else [])
      ∧ resume_attempts resm = pids r
      ∧ Forall (λ e, ∃ p b, e = EvResume p b) resm
      ∧ List.filter is_prompt
          (resm ++ [EvRemove ok]
             ++ (if (0 <? m)%nat then [EvShowInfo "Resumed" m] else [])) = []
      ∧ disk s' = (if ok then None else Some (FileRecord r))
      ∧ active_suspended s' = None.
Proof.
  cbn zeta. intros Hdisk Hrt Hpos Hlt.
  assert (Hint : Py.int (rt - clock s) = 0).
  { destruct (rt - clock s)%Q as [n d]. unfold Py.int, Qlt in *.
    cbn [Qnum Qden] in *. apply Z.quot_small. lia. }
  split; [rewrite Hrt; cbn [Py.fsub Py.fint]; now rewrite Hint|].
  split; [exact Hint|].
  destruct (recovery_overdue r rt s Hdisk Hrt Hlt)
    as (resm & m & ok & s' & Hrun & Htr & Hatt & Hall & Hd & Ha & _).
  rewrite Hrun. cbn [snd]. exists resm, m, ok.
  split; [exact Htr|]. split; [exact Hatt|]. split; [exact Hall|].
  split; [|done].
  rewrite !List.filter_app.
  assert (Hr : List.filter is_prompt resm = []).
  { clear -Hall. induction Hall as [|e l (p & b & ->) _ IH]; [done|]. exact IH. }
  rewrite Hr. now destruct (0 <? m)%nat.
Qed.

(** A record for pids 100 and 200 due a quarter of a second from now. *)
Lemma subsecond_future_is_overdue_witness :
  let r := {| pids := [100; 200]; resume_time := Py.Finite (4001 # 4); saved_at := 900 |} in
  let s := init env_ok 1000 (Some (FileRecord r)) in
  Py.int ((4001 # 4) - clock s) = 0
  ∧ ∃ resm m ok,
      trace (check_persisted_suspend_state s).2
      = trace s ++ resm ++ [EvRemove ok]
          ++ (if (0 <? m)%nat then [EvShowInfo "Resumed" m] else [])
      ∧ resume_attempts resm = [100; 200].
Proof.
  intros r s.
  destruct (subsecond_future_is_overdue r (4001 # 4) s eq_refl eq_refl
              ltac:(reflexivity) ltac:(reflexivity))
    as (_ & Hint & resm & m & ok & Htr & Hatt & _).
  split; [exact Hint|]. exists resm, m, ok. split; [exact Htr|exact Hatt].
Defined.

End SuspendFacts.

(** ** Durable suspend / resume: further properties *)

Section SuspendMore.

Import Suspend.

Implicit Types (s : State) (evs : list event).

Ltac run_M :=
  cbv beta iota zeta delta
    [mbind M_bind mret M_ret get emit set_disk set_active time_time
     write_file os_suspend os_resume askyesno].


Lemma waited_raised max dt slp w :
  Py.flt (Py.Finite 0) dt = true → sleep_duration max dt = None →
  waited max dt slp w → slp = [EvSleepRaises dt] ∧ w = None.
Proof. intros Hlt Hq [Hn | q' _ Hq' | _ Hq']; [congruence | congruence | done]. Qed.




(** X2. A write that fails is not harmless in every case.  When [open]
    fails the file and the in-memory copy stay as they were; when
    [json.dump] fails after [open] truncated the file, whatever record was
    stored before is lost: the next load finds nothing. *)
Theorem failed_write_effect (pid_list : list Z) (resume_time : Py.pyfloat) s :
  let r := {| pids := pid_list; resume_time := resume_time; saved_at := clock s |} in
  let s1 := (save_suspend_state pid_list resume_time s).2 in
  (write_outcome (env s) (trace s) r = OpenFails →
     disk s1 = disk s ∧ active_suspended s1 = active_suspended s
     ∧ (load_suspend_state s1).1 = (load_suspend_state s).1)
  ∧ (write_outcome (env s) (trace s) r = DumpFails →
     (load_suspend_state s1).1 = None ∧ active_suspended s1 = active_suspended s).
Proof.
  cbn zeta. rewrite save_suspend_state_spec. cbn zeta.
  split; intros ->; cbn [snd]; unfold load_suspend_state; run_M; done.
Qed.

(** A stored record meets a write whose [json.dump] fails. *)
Lemma failed_write_effect_witness :
  let old := {| pids := [7]; resume_time := Py.Finite 5000; saved_at := 5 |} in
  let s := init env_dump_fails 1000 (Some (FileRecord old)) in
  (load_suspend_state s).1 = Some (StateRecord old)
  ∧ (load_suspend_state (save_suspend_state [100] (Py.Finite 4600) s).2).1 = None.
Proof.
  intros old s. split; [reflexivity|].
  destruct (failed_write_effect [100] (Py.Finite 4600) s) as [_ H].
  destruct (H eq_refl) as [Hload _]. exact Hload.
Defined.

(** X3. [clear_suspend_state] always drops the in-memory copy.  Without a
    file it makes no call at all; when [os.remove] succeeds the next load
    finds nothing and a second clear does nothing; when [os.remove] fails
    the file is left as it was, so the next load still returns what it
    returned before. *)
Theorem clear_then_load s :
  let s1 := (clear_suspend_state s).2 in
  active_suspended s1 = None
  ∧ (disk s = None → trace s1 = trace s ∧ disk s1 = None)
  ∧ (remove_ok (env s) (trace s) = true →
     (load_suspend_state s1).1 = None ∧ clear_suspend_state s1 = (tt, s1))
  ∧ (remove_ok (env s) (trace s) = false →
     (load_suspend_state s1).1 = (load_suspend_state s).1).
Proof.
  cbn zeta. unfold clear_suspend_state, load_suspend_state. run_M.
  destruct (disk s) as [c|] eqn:Hd; cbn beta iota.
  - destruct (remove_ok (env s) (trace s)) eqn:Hr; cbn beta iota; cbn [snd];
      unfold extend; cbn [disk active_suspended trace env clock]; rewrite ?Hd;
      repeat split; try done.
  - cbn [snd disk active_suspended trace]. rewrite Hd. repeat split; done.
Qed.

Lemma clear_then_load_witness :
  let r := {| pids := [7]; resume_time := Py.Finite 5000; saved_at := 5 |} in
  let s := init env_ok 1000 (Some (FileRecord r)) in
  (load_suspend_state (clear_suspend_state s).2).1 = None.
Proof.
  intros r s. destruct (clear_then_load s) as (_ & _ & H & _).
  destruct (H eq_refl) as [Hload _]. exact Hload.
Defined.

(** X4. One run of [_suspend_resume_processes] that returns: after the
    write, every pid gets a suspend attempt whether or not earlier ones
    failed; the "Stopped" dialog reports how many succeeded; the resume
    attempts are exactly the pids whose suspend succeeded, in order; the
    "Resumed" dialog appears only when at least one resume succeeded and
    reports that number; the in-memory copy is dropped at the end. *)
Theorem scheduler_resumes_what_it_suspended
    (pid_list : list Z) (seconds : Py.pyfloat) s :
  let s' := (_suspend_resume_processes pid_list seconds s).2 in
  (_suspend_resume_processes pid_list seconds s).1 = Returned →
  ∃ e_write susp slp resm clr,
    trace s' = trace s ++ [e_write] ++ susp
                 ++ [EvShowInfo "Stopped" (length (suspended_ok susp))]
                 ++ slp ++ resm ++ clr
                 ++ (if (0 <? length (resumed_ok resm))%nat
                     then [EvShowInfo "Resumed" (length (resumed_ok resm))]
                     else [])
    ∧ is_write e_write = true
    ∧ suspend_attempts susp = pid_list
    ∧ Forall (λ e, is_suspend e = true) susp
    ∧ (slp = [] ∨ ∃ dt, slp = [EvSleep dt])
    ∧ resume_attempts resm = suspended_ok susp
    ∧ Forall (λ e, ∃ p ok, e = EvResume p ok) resm
    ∧ (clr = [] ∨ ∃ ok, clr = [EvRemove ok])
    ∧ active_suspended s' = None.
Proof.
  cbn zeta.
  destruct (suspend_resume_run pid_list seconds s)
    as (susp & slp & w & Hatt & Hall & Hw & Hcase).
  cbn zeta in Hall, Hw, Hcase. destruct w as [q|]; [|rewrite Hcase; discriminate].
  destruct Hcase as (resm & clr & d & -> & Hratt & Hrall & Hc). intros _.
  cbn [snd trace active_suspended].
  eexists _, susp, slp, resm, clr. split; [reflexivity|].
  split; [done|]. split; [done|]. split; [exact (suspends_suspend _ _ Hall)|].
  split; [inversion Hw; eauto|].
  split; [done|]. split; [done|]. split; [|done].
  destruct Hc as [(-> & _) | (ok & h & -> & _)]; eauto.
Qed.

Lemma scheduler_resumes_what_it_suspended_witness :
  let s := init env_ok 1000 None in
  ∃ e_write susp slp resm clr tail,
    trace (_suspend_resume_processes [100; 200] (Py.Finite 60) s).2
    = trace s ++ [e_write] ++ susp
        ++ [EvShowInfo "Stopped" (length (suspended_ok susp))]
        ++ slp ++ resm ++ clr ++ tail
    ∧ suspend_attempts susp = [100; 200]
    ∧ resume_attempts resm = suspended_ok susp.
Proof.
  intros s.
  destruct (scheduler_resumes_what_it_suspended [100; 200] (Py.Finite 60) s eq_refl)
    as (e_write & susp & slp & resm & clr & Htr & _ & Hatt & _ & _ & Hratt & _).
  eexists e_write, susp, slp, resm, clr, _.
  split; [exact Htr|]. split; [exact Hatt | exact Hratt].
Defined.



(** X6. Unless the operator confirms, [stop_selected_task] shows exactly
    one dialog and does nothing else: no write, no suspend, no sleep; the
    file, the in-memory copy and the clock are as before. *)
Theorem stop_needs_confirmation
    (selection : option (list Z)) (choice : string) (custom : option Py.pyfloat) s :
  let s' := (stop_selected_task selection choice custom s).2 in
  ask (env s) (trace s) "Confirm" ≠ Some true →
  ∃ e, s' = extend s [e] ∧ shown [e] = [e].
Proof.
  cbn zeta. intros Hask. unfold stop_selected_task.
  destruct selection as [[|p l]|]; [eexists; split; reflexivity| |eexists; split; reflexivity].
  destruct (seconds_of_choice choice custom) as [seconds|];
    [|eexists; split; reflexivity].
  run_M. destruct (ask (env s) (trace s) "Confirm") as [[|]|] eqn:Ha; [done| |];
    eexists; split; reflexivity.
Qed.

Lemma stop_needs_confirmation_witness :
  let s := init env_declines 1000 None in
  ∃ ev, (stop_selected_task (Some [100; 200]) "2 Hours" None s).2 = extend s [ev]
        ∧ shown [ev] = [ev].
Proof.
  intros s. apply (stop_needs_confirmation (Some [100; 200]) "2 Hours" None s).
  discriminate.
Defined.

(** X7. Start-up recovery does nothing at all when there is no state file
    or when the file does not pass the validation. *)
Theorem recovery_without_record s :
  disk s = None ∨ disk s = Some FileGarbage →
  check_persisted_suspend_state s = (Returned, s).
Proof.
  intros Hd. unfold check_persisted_suspend_state, load_suspend_state. run_M.
  destruct Hd as [-> | ->]; reflexivity.
Qed.

Lemma recovery_without_record_witness :
  check_persisted_suspend_state (init env_ok 1000 (Some FileGarbage))
  = (Returned, init env_ok 1000 (Some FileGarbage)).
Proof. apply recovery_without_record. right. reflexivity. Defined.



(** X9. [resume_pids] attempts every pid of its list, in order, also after
    a failure; it returns the number of attempts that succeeded, which is
    at most the length of the list; the file, the clock and the in-memory
    copy are not touched. *)
Theorem resume_pids_counts (pid_list : list Z) s :
  ∃ evs,
    resume_pids pid_list s = (length (resumed_ok evs), extend s evs)
    ∧ resume_attempts evs = pid_list
    ∧ Forall (λ e, ∃ p ok, e = EvResume p ok) evs
    ∧ (length (resumed_ok evs) <= length pid_list)%nat.
Proof.
  unfold resume_pids.
  destruct (resume_each_count pid_list 0%nat s) as (evs & Hrun & Hatt & Hall).
  exists evs. split; [exact Hrun|]. split; [exact Hatt|]. split; [exact Hall|].
  rewrite <- Hatt. clear -Hall. induction Hall as [|e evs (p & ok & ->) _ IH]; [done|].
  change (EvResume p ok :: evs) with ([EvResume p ok] ++ evs).
  rewrite resumed_ok_app, resume_attempts_app, !length_app.
  destruct ok; cbn; lia.
Qed.

(** X10. Crash recovery end to end.  Once [save_suspend_state] has written
    the record for [pid_list] with a finite deadline, any later start that
    finds the file as it was left, with less than a second to the deadline,
    attempts a resume on every pid of [pid_list], in order: on all the pids
    that were requested, not only on those whose suspend had succeeded. *)
Theorem recovery_after_crash (pid_list : list Z) (resume_time : Q) s s2 :
  let r := {| pids := pid_list; resume_time := Py.Finite resume_time;
              saved_at := clock s |} in
  let s1 := (save_suspend_state pid_list (Py.Finite resume_time) s).2 in
  let s3 := (check_persisted_suspend_state s2).2 in
  write_outcome (env s) (trace s) r = WriteOk →
  disk s2 = disk s1 →
  (resume_time - clock s2 < 1)%Q →
  ∃ resm tail,
    trace s3 = trace s2 ++ resm ++ tail
    ∧ resume_attempts resm = pid_list
    ∧ resume_attempts tail = []
    ∧ List.filter is_prompt (resm ++ tail) = []
    ∧ active_suspended s3 = None.
Proof.
  cbn zeta. intros Hw Hd Hlt.
  rewrite save_suspend_state_spec in Hd. cbn zeta in Hd. rewrite Hw in Hd. cbn [snd disk] in Hd.
  destruct (recovery_overdue _ resume_time s2 Hd eq_refl Hlt)
    as (resm & m & ok & s' & Hrun & Htr & Hatt & Hall & _ & Ha & _).
  rewrite Hrun. cbn [snd]. eexists resm, _. split; [exact Htr|].
  split; [exact Hatt|]. split; [now destruct (0 <? m)%nat|]. split; [|exact Ha].
  rewrite List.filter_app.
  assert (Hr : List.filter is_prompt resm = []).
  { clear -Hall. induction Hall as [|e l (p & b & ->) _ IH]; [done|]. exact IH. }
  rewrite Hr. now destruct (0 <? m)%nat.
Qed.

(** The application is closed during a two-hour suspension and started
    again three hours later. *)
Lemma recovery_after_crash_witness :
  let s := init env_ok 1000 None in
  let s1 := (save_suspend_state [100; 200] (Py.Finite 8200) s).2 in
  let s2 := init env_ok 11800 (disk s1) in
  ∃ resm tail,
    trace (check_persisted_suspend_state s2).2 = trace s2 ++ resm ++ tail
    ∧ resume_attempts resm = [100; 200].
Proof.
  intros s s1 s2.
  destruct (recovery_after_crash [100; 200] 8200 s s2 eq_refl eq_refl ltac:(reflexivity))
    as (resm & tail & Htr & Hatt & _).
  exists resm, tail. split; [exact Htr | exact Hatt].
Defined.

(** The run of the scheduler when the sleep raises. *)
Lemma overlong_sleep_run (pid_list : list Z) (seconds : Py.pyfloat) s :
  let rt := Py.fadd (Py.Finite (clock s)) seconds in
  let r := {| pids := pid_list; resume_time := rt; saved_at := clock s |} in
  let res := write_outcome (env s) (trace s) r in
  let time_left := Py.fsub rt (Py.Finite (clock s)) in
  let run := _suspend_resume_processes pid_list seconds s in
  Py.flt (Py.Finite 0) seconds = true →
  sleep_duration (sleep_max (env s)) time_left = None →
  run.1 = Raised
  ∧ ∃ susp,
      trace run.2 = trace s ++ [EvWrite r res] ++ susp
                      ++ [EvShowInfo "Stopped" (length (suspended_ok susp));
                          EvSleepRaises time_left]
      ∧ suspend_attempts susp = pid_list
      ∧ Forall (λ e, is_suspend e = true) susp
      ∧ disk run.2 = match res with
                     | WriteOk => Some (FileRecord r)
                     | OpenFails => disk s
                     | DumpFails => Some FileGarbage
                     end
      ∧ active_suspended run.2
        = match res with WriteOk => Some r | _ => active_suspended s end
      ∧ clock run.2 = clock s.
Proof.
  cbn zeta. intros Hlt Hq.
  destruct (suspend_resume_run pid_list seconds s)
    as (susp & slp & w & Hatt & Hall & Hw & Hcase).
  cbn zeta in Hall, Hw, Hcase.
  rewrite <- (time_left_positive (clock s)) in Hlt.
  destruct (waited_raised _ _ _ _ Hlt Hq Hw) as [-> ->].
  rewrite Hcase. cbn [fst snd trace disk active_suspended clock].
  split; [reflexivity|]. exists susp.
  split; [reflexivity|]. split; [exact Hatt|].
  split; [exact (suspends_suspend _ _ Hall)|]. done.
Qed.

(** X18. A positive duration that [time.sleep] does not accept ([inf], or
    a finite value beyond its range) ends the scheduler thread at the
    sleep: the record has been written and every pid has had its suspend
    attempt, but no resume is attempted, the state file is not removed and
    the in-memory copy is not dropped. *)
Theorem overlong_sleep_leaves_suspended (pid_list : list Z) (seconds : Py.pyfloat) s :
  let rt := Py.fadd (Py.Finite (clock s)) seconds in
  let r := {| pids := pid_list; resume_time := rt; saved_at := clock s |} in
  let res := write_outcome (env s) (trace s) r in
  let time_left := Py.fsub rt (Py.Finite (clock s)) in
  let run := _suspend_resume_processes pid_list seconds s in
  Py.flt (Py.Finite 0) seconds = true →
  sleep_duration (sleep_max (env s)) time_left = None →
  run.1 = Raised
  ∧ ∃ susp,
      trace run.2 = trace s ++ [EvWrite r res] ++ susp
                      ++ [EvShowInfo "Stopped" (length (suspended_ok susp));
                          EvSleepRaises time_left]
      ∧ suspend_attempts susp = pid_list
      ∧ Forall (λ e, is_suspend e = true) susp
      ∧ disk run.2 = match res with
                     | WriteOk => Some (FileRecord r)
                     | OpenFails => disk s
                     | DumpFails => Some FileGarbage
                     end
      ∧ active_suspended run.2
        = match res with WriteOk => Some r | _ => active_suspended s end
      ∧ clock run.2 = clock s.
Proof. exact (overlong_sleep_run pid_list seconds s). Qed.

(** A suspension for 400 years, more than [time.sleep] takes. *)
Lemma overlong_sleep_leaves_suspended_witness :
  let s := init env_ok 1000 None in
  let run := _suspend_resume_processes [100; 200] (Py.Finite 12614400000) s in
  run.1 = Raised
  ∧ resume_attempts (trace run.2) = []
  ∧ disk run.2 = Some (FileRecord {| pids := [100; 200];
                                     resume_time := Py.Finite (1000 + 12614400000);
                                     saved_at := 1000 |}).
Proof.
  intros s run.
  destruct (overlong_sleep_leaves_suspended [100; 200] (Py.Finite 12614400000) s
              eq_refl eq_refl) as (Ho & susp & Htr & Hatt & Hall & Hd & _).
  split; [exact Ho|]. split; [|exact Hd].
  subst run. rewrite Htr.
  destruct (suspends_only susp Hall) as (Hu1 & _).
  rewrite !resume_attempts_app, Hu1. reflexivity.
Defined.

(** X19. "inf" typed as custom minutes is accepted.  Once the operator
    confirms, the record is written with an infinite [resume_time], every
    pid gets its suspend attempt and nothing is resumed; the record stays
    in the file.  Every later start-up recovery that finds this file raises
    at [int(resume_time - now)] before it makes any call: the program
    never resumes these processes and never removes the record. *)
Theorem infinite_duration_never_resumed (pid_list : list Z) s :
  let s' := (stop_selected_task (Some pid_list) "Custom (Minutes)" (Some Py.PosInf) s).2 in
  pid_list ≠ [] →
  ask (env s) (trace s) "Confirm" = Some true →
  (∀ h r, write_outcome (env s) h r = WriteOk) →
  ∃ r evs,
    trace s' = trace s ++ evs
    ∧ suspend_attempts evs = pid_list
    ∧ resume_attempts evs = []
    ∧ pids r = pid_list
    ∧ resume_time r = Py.PosInf
    ∧ disk s' = Some (FileRecord r)
    ∧ active_suspended s' = Some r
    ∧ ∀ s2, disk s2 = disk s' → check_persisted_suspend_state s2 = (Raised, s2).
Proof.
  cbn zeta. intros Hne Hask Hwrite. unfold stop_selected_task.
  destruct pid_list as [|p l]; [done|]. set (pid_list := p :: l).
  change (seconds_of_choice "Custom (Minutes)" (Some Py.PosInf)) with (Some Py.PosInf).
  run_M. rewrite Hask.
  set (s1 := extend s [EvAskYesNo "Confirm" (length pid_list) (Some true)]).
  destruct (overlong_sleep_run pid_list Py.PosInf s1 eq_refl eq_refl)
    as (Ho & susp & Htr & Hatt & Hall & Hd & Ha & _).
  destruct (_suspend_resume_processes pid_list Py.PosInf s1) as [o s'] eqn:Hrun.
  cbn [fst snd] in *. cbn [Py.fadd] in *.
  change (env s1) with (env s) in *. rewrite Hwrite in *.
  destruct (suspends_only susp Hall) as (Hu1 & _).
  exists {| pids := pid_list; resume_time := Py.PosInf; saved_at := clock s1 |}.
  eexists. split.
  { rewrite Htr. subst s1. unfold extend. cbn [trace]. rewrite <- app_assoc. reflexivity. }
  split.
  { rewrite !suspend_attempts_app, Hatt. cbn. now rewrite app_nil_r. }
  split.
  { rewrite !resume_attempts_app, Hu1. reflexivity. }
  split; [reflexivity|]. split; [reflexivity|]. split; [exact Hd|]. split; [exact Ha|].
  intros s2 Hd2. rewrite Hd in Hd2.
  apply (recovery_raises _ s2 Hd2). intros rt. discriminate.
Qed.

Lemma infinite_duration_never_resumed_witness :
  let s := init env_ok 1000 None in
  let s' := (stop_selected_task (Some [100; 200]) "Custom (Minutes)" (Some Py.PosInf) s).2 in
  suspend_attempts (trace s') = [100; 200]
  ∧ resume_attempts (trace s') = []
  ∧ check_persisted_suspend_state (init env_ok 5000 (disk s'))
    = (Raised, init env_ok 5000 (disk s')).
Proof.
  intros s s'.
  destruct (infinite_duration_never_resumed [100; 200] s ltac:(discriminate) eq_refl
              ltac:(reflexivity))
    as (r & evs & Htr & Hatt & Hratt & _ & _ & _ & _ & Hrec).
  fold s' in Htr, Hrec. rewrite Htr. cbn [trace s init app].
  split; [exact Hatt|]. split; [exact Hratt|]. apply Hrec. reflexivity.
Defined.

End SuspendMore.

Section GraphFacts.

Import Graph.

Lemma tail_drop {A} (k : nat) (l : list A) : tail (drop k l) = drop (S k) l.
Proof.
  revert l. induction k as [|k IH]; intros [|x l]; try done.
  cbn [drop]. apply IH.
Qed.

Lemma window_snoc {A} (l : list A) (x : A) :
  let w := drop (length l - 60) l ++ [x] in
  (if (60 <? length w)%nat then tail w else w)
  = drop (length (l ++ [x]) - 60) (l ++ [x]).
Proof.
  cbn zeta. rewrite !length_app, length_drop. cbn [length].
  destruct (60 <? _)%nat eqn:E.
  - apply Nat.ltb_lt in E.
    rewrite <- drop_app_le by lia. rewrite tail_drop. f_equal. lia.
  - apply Nat.ltb_ge in E.
    replace (length l - 60)%nat with 0%nat by lia.
    replace (length l + 1 - 60)%nat with 0%nat by lia. now rewrite !drop_0.
Qed.

(** X11. [update_graph] keeps a sliding window: after any sequence of
    ticks the two lists hold the last 60 readings that could be taken,
    oldest first, cpu and memory side by side, so they have the same
    length, at most 60; a tick whose reading fails adds nothing. *)
Theorem graph_keeps_last_60 (readings : list (option (Q * Q))) :
  let taken := omap id readings in
  run readings
  = (drop (length taken - 60) taken.*1, drop (length taken - 60) taken.*2)
  ∧ length (run readings).1 = length (run readings).2
  ∧ (length (run readings).1 <= 60)%nat.
Proof.
  cbn zeta.
  assert (Hrun : run readings
                 = (drop (length (omap id readings) - 60) (omap id readings).*1,
                    drop (length (omap id readings) - 60) (omap id readings).*2)).
  { unfold run. induction readings as [|r l IH] using rev_ind; [done|].
    rewrite fold_left_app, IH, omap_app. cbn [fold_left].
    destruct r as [[c m]|].
    - change (omap id [Some (c, m)]) with [(c, m)].
      rewrite !fmap_app, length_app. cbn [fmap list_fmap length fst snd].
      unfold update_graph. cbn [fst snd].
      pose proof (window_snoc (omap id l).*1 c) as H1.
      pose proof (window_snoc (omap id l).*2 m) as H2.
      cbn zeta in H1, H2. rewrite !length_app, !length_fmap in H1, H2.
      cbn [length] in H1, H2. rewrite <- H1, <- H2.
      rewrite !length_app, !length_drop, !length_fmap. cbn [length].
      clear. destruct (Nat.ltb _ _); reflexivity.
    - change (omap id [None]) with (@nil (Q * Q)). now rewrite app_nil_r. }
  rewrite Hrun. cbn [fst snd]. split; [done|].
  rewrite !length_drop, !length_fmap. split; lia.
Qed.

End GraphFacts.

(** ** Ending a group *)

Section TerminateFacts.

Import Terminate.

Implicit Types (e : Env) (hist evs : list event).

Lemma terminated_app evs1 evs2 : terminated (evs1 ++ evs2) = terminated evs1 ++ terminated evs2.
Proof. apply omap_app. Qed.

Lemma killed_hard_app evs1 evs2 :
  killed_hard (evs1 ++ evs2) = killed_hard evs1 ++ killed_hard evs2.
Proof. apply omap_app. Qed.

Lemma ended_app evs1 evs2 : ended (evs1 ++ evs2) = ended evs1 ++ ended evs2.
Proof. apply omap_app. Qed.

Lemma terminate_failed_app evs1 evs2 :
  terminate_failed (evs1 ++ evs2) = terminate_failed evs1 ++ terminate_failed evs2.
Proof. apply omap_app. Qed.

(** The loop of [end_selected_task]: one [terminate()] per pid, a [kill()]
    right after each [terminate()] that failed and nowhere else, and a
    count of the pids for which one of the two went through. *)
Lemma terminate_each_spec e (pid_list : list Z) : ∀ hist killed, ∃ evs,
  terminate_each e pid_list hist killed = (hist ++ evs, (killed + length (ended evs))%nat)
  ∧ terminated evs = pid_list
  ∧ killed_hard evs = terminate_failed evs
  ∧ ended evs `sublist_of` pid_list
  ∧ Forall (λ ev, ∃ p ok, ev = EvTerminate p ok ∨ ev = EvKill p ok) evs.
Proof.
  induction pid_list as [|pid rest IH]; intros hist killed.
  - exists []. cbn. rewrite app_nil_r, Nat.add_0_r. repeat split; constructor.
  - cbn [terminate_each]. cbn zeta.
    destruct (terminate_ok e hist pid) eqn:Hok.
    + destruct (IH (hist ++ [EvTerminate pid true]) (S killed))
        as (evs & Hrun & Ht & Hk & He & Hall).
      exists ([EvTerminate pid true] ++ evs). rewrite Hrun, <- app_assoc.
      rewrite terminated_app, killed_hard_app, terminate_failed_app, ended_app, length_app.
      cbn [terminated killed_hard terminate_failed ended omap list_omap app length].
      split; [f_equal; lia|]. split; [now rewrite Ht|]. split; [done|].
      split; [now apply sublist_skip|].
      constructor; [exists pid, true; now left | done].
    + set (ok' := kill_ok e (hist ++ [EvTerminate pid false]) pid).
      destruct (IH ((hist ++ [EvTerminate pid false]) ++ [EvKill pid ok'])
                  (if ok' then S killed else killed))
        as (evs & Hrun & Ht & Hk & He & Hall).
      exists ([EvTerminate pid false; EvKill pid ok'] ++ evs).
      rewrite Hrun, <- !app_assoc.
      rewrite terminated_app, killed_hard_app, terminate_failed_app, ended_app, length_app.
      split; [|split; [|split; [|split]]].
      * f_equal. destruct ok'; cbn; lia.
      * cbn. now rewrite Ht.
      * cbn. now rewrite Hk.
      * destruct ok'; cbn; [now apply sublist_skip | now apply sublist_cons].
      * constructor; [exists pid, false; now left|].
        constructor; [exists pid, ok'; now right | done].
Qed.

(** X12. A confirmed [end_selected_task] over a non-empty pid list calls
    [terminate()] once on every pid, in order, whatever fails on the way;
    it calls [kill()] exactly on the pids whose [terminate()] failed; the
    number it reports is the number of pids for which one of the two calls
    went through, never more than the number of pids; a refresh follows. *)
Theorem end_task_terminates_each e (pid_list : list Z) hist :
  pid_list ≠ [] →
  confirm e hist = true →
  ∃ evs,
    end_selected_task e (Some pid_list) hist
    = hist ++ [EvAskYesNo (length pid_list) true] ++ evs
        ++ [EvShowResult (length (ended evs)); EvRefresh]
    ∧ terminated evs = pid_list
    ∧ killed_hard evs = terminate_failed evs
    ∧ ended evs `sublist_of` pid_list
    ∧ (length (ended evs) <= length pid_list)%nat
    ∧ Forall (λ ev, ∃ p ok, ev = EvTerminate p ok ∨ ev = EvKill p ok) evs.
Proof.
  intros Hne Hc. unfold end_selected_task. destruct pid_list as [|p l]; [done|].
  cbn zeta. rewrite Hc.
  destruct (terminate_each_spec e (p :: l) (hist ++ [EvAskYesNo (length (p :: l)) true]) 0%nat)
    as (evs & Hrun & Ht & Hk & He & Hall).
  rewrite Hrun. exists evs. rewrite <- !app_assoc.
  split; [done|]. split; [done|]. split; [done|]. split; [done|].
  split; [now apply sublist_length | done].
Qed.

(** Pid 100 goes on [terminate()], pid 200 needs [kill()]. *)
Lemma end_task_terminates_each_witness :
  let e := {| terminate_ok := λ _ p, bool_decide (p = 100);
              kill_ok := λ _ _, true; confirm := λ _, true |} in
  ∃ evs,
    end_selected_task e (Some [100; 200]) []
    = [] ++ [EvAskYesNo 2 true] ++ evs ++ [EvShowResult (length (ended evs)); EvRefresh]
    ∧ terminated evs = [100; 200]
    ∧ killed_hard evs = terminate_failed evs.
Proof.
  intros e.
  destruct (end_task_terminates_each e [100; 200] []) as (evs & Hrun & Ht & Hk & _);
    [discriminate | reflexivity |].
  exists evs. split; [exact Hrun|]. split; [exact Ht | exact Hk].
Defined.

Example end_task_example :
  let e := {| terminate_ok := λ _ p, bool_decide (p = 100);
              kill_ok := λ _ _, true; confirm := λ _, true |} in
  end_selected_task e (Some [100; 200]) []
  = [EvAskYesNo 2 true; EvTerminate 100 true; EvTerminate 200 false; EvKill 200 true;
     EvShowResult 2; EvRefresh].
Proof. vm_compute. reflexivity. Qed.

(** X13. Without a selection, without pids, or when the operator does not
    confirm, [end_selected_task] calls neither [terminate()] nor [kill()]
    and starts no refresh: it only shows one dialog. *)
Theorem end_task_needs_confirmation e (selection : option (list Z)) hist :
  selection = None ∨ selection = Some [] ∨ confirm e hist = false →
  ∃ ev, end_selected_task e selection hist = hist ++ [ev]
        ∧ terminated [ev] = [] ∧ killed_hard [ev] = [] ∧ ev ≠ EvRefresh.
Proof.
  unfold end_selected_task.
  intros [-> | [-> | Hc]]; [eexists; repeat split; done..|].
  destruct selection as [[|p l]|]; [eexists; repeat split; done| |eexists; repeat split; done].
  cbn zeta. rewrite Hc. eexists; repeat split; done.
Qed.

Lemma end_task_needs_confirmation_witness :
  let e := {| terminate_ok := λ _ _, true; kill_ok := λ _ _, true;
              confirm := λ _, false |} in
  ∃ ev, end_selected_task e (Some [100; 200]) [] = [] ++ [ev] ∧ terminated [ev] = [].
Proof.
  intros e.
  destruct (end_task_needs_confirmation e (Some [100; 200]) []) as (ev & Hrun & Ht & _);
    [right; right; reflexivity|].
  exists ev. split; [exact Hrun | exact Ht].
Defined.

End TerminateFacts.

(** ** Searching *)

Section SearchFacts.

Import Search.

Implicit Types (a b q : string) (p : Agg.group).

Lemma startswith_spec a q : PyText.startswith a q = true ↔ ∃ b, a = q +:+ b.
Proof.
  revert a. induction q as [|c q IH]; intros [|d a]; cbn [PyText.startswith].
  - split; [intros _; now exists "" | done].
  - split; [intros _; now exists (String d a) | done].
  - split; [done|]. intros (b & Hb). discriminate Hb.
  - case_decide as Hcd.
    + subst d. rewrite IH. split; intros (b & Hb); exists b.
      * now rewrite Hb.
      * now injection Hb.
    + split; [done|]. intros (b & Hb). injection Hb as ? ?. congruence.
Qed.

(** [q in a] holds exactly when [q] occurs inside [a]. *)
Lemma contains_spec a q : PyText.contains a q = true ↔ ∃ pre post, a = pre +:+ q +:+ post.
Proof.
  induction a as [|d a IH]; cbn [PyText.contains].
  - destruct (PyText.startswith "" q) eqn:E.
    + split; [intros _|done]. apply startswith_spec in E as (b & Hb). now exists "", b.
    + split; [done|]. intros (pre & post & H). exfalso.
      destruct pre as [|c pre]; [|discriminate H].
      assert (PyText.startswith "" q = true); [|congruence].
      apply startswith_spec. now exists post.
  - destruct (PyText.startswith (String d a) q) eqn:E.
    + split; [intros _|done]. apply startswith_spec in E as (b & Hb). now exists "", b.
    + rewrite IH. split.
      * intros (pre & post & ->). now exists (String d pre), post.
      * intros (pre & post & H). destruct pre as [|c pre].
        -- exfalso. assert (PyText.startswith (String d a) q = true); [|congruence].
           apply startswith_spec. now exists post.
        -- injection H as -> ->. now exists pre, post.
Qed.

(** What it means for a group to match a query. *)
Lemma matches_spec q p :
  matches q p = true
  ↔ (∃ pre post, Py.lower (Agg.display_name p) = pre +:+ q +:+ post)
    ∨ (∃ pid pre post, pid ∈ Agg.pids p ∧ Py.str pid = pre +:+ q +:+ post).
Proof.
  unfold matches. rewrite orb_true_iff, contains_spec, existsb_exists.
  split; (intros [H | H]; [now left | right]).
  - destruct H as (pid & Hin & (pre & post & H)%contains_spec).
    exists pid, pre, post. split; [now apply list_elem_of_In | done].
  - destruct H as (pid & pre & post & Hin & H). exists pid.
    split; [now apply list_elem_of_In|]. apply contains_spec. now exists pre, post.
Qed.

(** X14. [search_process] lower-cases and strips the entry.  A blank
    query displays every group.  Otherwise it displays, in their order, the
    groups whose lower-cased display name contains the query or one of
    whose pids, written in decimal, contains it; when no group does,
    nothing is displayed and "Not Found" is reported. *)
Theorem search_shows_matches (entry : string) (all_processes : list Agg.group) :
  let query := Py.lower (Py.strip entry) in
  let hit p :=
    (∃ pre post, Py.lower (Agg.display_name p) = pre +:+ query +:+ post)
    ∨ (∃ pid pre post, pid ∈ Agg.pids p ∧ Py.str pid = pre +:+ query +:+ post) in
  (query = "" → search_process entry all_processes = Display all_processes)
  ∧ (query ≠ "" →
     match search_process entry all_processes with
     | Display l =>
         l ≠ [] ∧ l `sublist_of` all_processes
         ∧ ∀ p, p ∈ l ↔ p ∈ all_processes ∧ hit p
     | NotFound q' =>
         q' = query ∧ ∀ p, p ∈ all_processes → ¬ hit p
     end).
Proof.
  cbn zeta. unfold search_process. cbn zeta.
  set (query := Py.lower (Py.strip entry)).
  split; [now intros ->|]. intros Hq.
  destruct query as [|c q] eqn:Eq; [done|]. rewrite <- Eq in *.
  assert (Hin : ∀ p, p ∈ List.filter (matches query) all_processes
                     ↔ p ∈ all_processes ∧ matches query p = true).
  { intros p. rewrite !list_elem_of_In. apply filter_In. }
  assert (Hsub : List.filter (matches query) all_processes `sublist_of` all_processes).
  { clear. induction all_processes as [|p l IH]; [done|]. cbn.
    destruct (matches query p); [now apply sublist_skip | now apply sublist_cons]. }
  destruct (List.filter (matches query) all_processes) as [|p0 l0] eqn:El.
  - split; [done|]. intros p Hp Hhit. apply matches_spec in Hhit.
    assert (H : p ∈ @nil Agg.group) by (apply Hin; done). now apply elem_of_nil in H.
  - split; [done|]. split; [done|]. intros p. rewrite Hin, matches_spec. done.
Qed.

Lemma search_shows_matches_witness :
  search_process "  " [group_named "Chrome.exe" [10; 11] 0; group_named "helper" [412] 0]
  = Display [group_named "Chrome.exe" [10; 11] 0; group_named "helper" [412] 0]
  ∧ ∃ l, search_process "41" [group_named "Chrome.exe" [10; 11] 0; group_named "helper" [412] 0]
         = Display l
         ∧ l ≠ [] ∧ group_named "Chrome.exe" [10; 11] 0 ∉ l.
Proof.
  split.
  - apply (search_shows_matches "  "
             [group_named "Chrome.exe" [10; 11] 0; group_named "helper" [412] 0]).
    reflexivity.
  - pose proof (search_shows_matches "41"
             [group_named "Chrome.exe" [10; 11] 0; group_named "helper" [412] 0]) as [_ H].
    cbn zeta in H. specialize (H ltac:(discriminate)).
    destruct (search_process "41" _) as [l | q'] eqn:E; [|discriminate E].
    exists l. destruct H as (Hne & _ & Hin). split; [done|]. split; [done|].
    intros [_ Hhit]%Hin. destruct Hhit as [(pre & post & Hh) | (pid & pre & post & Hp & Hh)].
    + apply (f_equal (λ s, PyText.contains s "41")) in Hh.
      assert (PyText.contains (pre +:+ Py.lower (Py.strip "41") +:+ post) "41" = true) as Ht.
      { apply contains_spec. now exists pre, post. }
      rewrite Ht in Hh. vm_compute in Hh. discriminate Hh.
    + assert (PyText.contains (Py.str pid) "41" = true) as Ht.
      { apply contains_spec. exists pre, post. exact Hh. }
      cbn [group_named Agg.pids] in Hp.
      apply elem_of_cons in Hp as [-> | Hp]; [vm_compute in Ht; discriminate Ht|].
      apply list_elem_of_singleton in Hp as ->. vm_compute in Ht. discriminate Ht.
Defined.

Example search_example :
  search_process " CHROME " [group_named "Chrome.exe" [10; 11] 0; group_named "helper" [412] 0]
  = Display [group_named "Chrome.exe" [10; 11] 0]
  ∧ search_process "41" [group_named "Chrome.exe" [10; 11] 0; group_named "helper" [412] 0]
    = Display [group_named "helper" [412] 0]
  ∧ search_process "zzz" [group_named "Chrome.exe" [10; 11] 0; group_named "helper" [412] 0]
    = NotFound "zzz".
Proof. vm_compute. repeat split. Qed.

(** One display cycle, in terms of the names that are high. *)
Lemma display_processes_alerts (A : gset string) (entry : option Q) (ps : list Agg.group) :
  let out := Alert.display_processes A entry ps in
  Alert.alerted_names out = Alert.high_names entry ps
  ∧ ∀ n, n ∈ Alert.toast_name <$> Alert.toasts out ↔ n ∈ Alert.high_names entry ps ∧ n ∉ A.
Proof.
  cbn zeta. unfold Alert.display_processes, Alert.high_names.
  cbn [Alert.toasts Alert.alerted_names].
  pose proof (display_loop (Alert.memory_limit_of entry) ps
                {| Alert.current_high_names := ∅; Alert.alerted_names := A;
                   Alert.toasts := []; Alert.rows := [] |}) as (Hc & Ha & _ & Ht).
  cbn [Alert.current_high_names Alert.alerted_names Alert.toasts Alert.rows] in Hc, Ha, Ht.
  rewrite Hc, Ha, Ht. cbn [app]. split; [|intros n; apply new_toasts_names].
  apply set_eq. intros n.
  rewrite elem_of_difference, elem_of_filter, !elem_of_union.
  destruct (decide (n ∈ Alert.high_in (Alert.memory_limit_of entry) ps)) as [Hn | Hn].
  - split; [done|]. intros _. split; [now right|]. intros [Hno _]. apply Hno. now right.
  - split; [|done]. intros [[HA | HH] Hno]; [|done].
    exfalso. apply Hno. split; [|now left].
    intros [Hemp | HH]; [|done]. now apply not_elem_of_empty in Hemp.
Qed.

(** X15. A search that displays a list runs [display_processes] on that
    list, so the alert set becomes the set of high names among the groups
    displayed.  A high group that the search hides is thereby forgotten:
    the next display of all groups notifies its name again, even though it
    had been notified before the search.  A search that finds nothing
    leaves the alert set alone. *)
Theorem search_resets_alerts
    (alerted : gset string) (limit_entry : option Q)
    (entry : string) (all_processes : list Agg.group) :
  let after := alerted_after_search alerted limit_entry entry all_processes in
  match search_process entry all_processes with
  | Display l =>
      after = Alert.high_names limit_entry l
      ∧ ∀ n, n ∈ Alert.high_names limit_entry all_processes →
             n ∉ Alert.high_names limit_entry l →
             n ∈ Alert.toast_name
                   <$> Alert.toasts (Alert.display_processes after limit_entry all_processes)
  | NotFound _ => after = alerted
  end.
Proof.
  cbn zeta. unfold alerted_after_search.
  destruct (search_process entry all_processes) as [l | q]; [|done].
  destruct (display_processes_alerts alerted limit_entry l) as [Hal _].
  cbn zeta in Hal. split; [exact Hal|]. intros n Hn Hnot.
  apply display_processes_alerts. split; [exact Hn|]. now rewrite Hal.
Qed.

(** "db.exe" is over the limit and was notified; a search for "chrome"
    hides it; the next full display notifies it again. *)
Lemma search_resets_alerts_witness :
  "db.exe" ∈ Alert.toast_name
             <$> Alert.toasts
                   (Alert.display_processes
                      (alerted_after_search {["db.exe"]} (Some 200%Q) "chrome"
                         [group_named "db.exe" [1] 900; group_named "chrome.exe" [2] 100])
                      (Some 200%Q)
                      [group_named "db.exe" [1] 900; group_named "chrome.exe" [2] 100]).
Proof.
  pose proof (search_resets_alerts {["db.exe"]} (Some 200%Q) "chrome"
                [group_named "db.exe" [1] 900; group_named "chrome.exe" [2] 100]) as H.
  cbn zeta in H.
  change (search_process "chrome" _) with (Display [group_named "chrome.exe" [2] 100]) in H.
  destruct H as [_ H]. apply H.
  - vm_compute. set_solver.
  - vm_compute. set_solver.
Defined.

End SearchFacts.

(** ** The pids read back from the tree *)

Section TreeFacts.

Import PyText Tree.

Implicit Types (s d : string) (c : ascii).

Lemma digit_val_char c v :
  digit_val c = Some v →
  Py.isspace c = false ∧ c ≠ "-"%char ∧ c ≠ "+"%char ∧ 0 <= v <= 9.
Proof.
  destruct c as [[] [] [] [] [] [] [] []]; vm_compute; intros H;
    try discriminate H; injection H as <-; repeat split; discriminate.
Qed.

Lemma digit_val_pretty (x : N) :
  (x < 10)%N → digit_val (pretty_N_char x) = Some (Z.of_N x).
Proof.
  intros Hx. unfold pretty_N_char.
  destruct x as [|p]; [done|].
  do 4 (destruct p as [p|p|]; try done; try lia).
Qed.

Lemma append_cons c d s : String c d +:+ s = String c (d +:+ s).
Proof. reflexivity. Qed.

Lemma append_empty_r s : s +:+ "" = s.
Proof. induction s as [|c s IH]; [done|]. now rewrite append_cons, IH. Qed.

Lemma append_assoc s1 s2 s3 : (s1 +:+ s2) +:+ s3 = s1 +:+ (s2 +:+ s3).
Proof. induction s1 as [|c s1 IH]; [done|]. now rewrite !append_cons, IH. Qed.

Lemma all_digits_app d s : all_digits (d +:+ s) = (all_digits d && all_digits s)%bool.
Proof.
  induction d as [|c d IH]; [done|]. rewrite append_cons. cbn [all_digits].
  destruct (digit_val c); [exact IH | done].
Qed.

(** Reading on after a run of digits. *)
Lemma int_digits_app d : ∀ s acc v,
  all_digits d = true → int_digits true acc d = Some v →
  int_digits true acc (d +:+ s) = int_digits true v s.
Proof.
  induction d as [|c d IH]; intros s acc v Hd Hv.
  - cbn in Hv. now injection Hv as ->.
  - rewrite append_cons. cbn [int_digits all_digits] in *.
    destruct (digit_val c) as [dv|]; [|done]. now apply IH.
Qed.

(** The decimal digits that [pretty] puts in front of [s]. *)
Lemma pretty_N_go_digits (x : N) :
  ∃ d, (∀ s, pretty_N_go x s = d +:+ s)
       ∧ all_digits d = true
       ∧ ((0 < x)%N → d ≠ "")
       ∧ ∀ acc, int_digits true acc d
                = Some (acc * 10 ^ Z.of_nat (String.length d) + Z.of_N x).
Proof.
  induction (N.lt_wf_0 x) as [x _ IH].
  destruct (decide (x = 0)%N) as [-> | Hx].
  - exists "". split; [intros s; now rewrite pretty_N_go_0|].
    split; [done|]. split; [lia|]. intros acc. cbn. f_equal. lia.
  - destruct (IH (x `div` 10)%N) as (d & Hgo & Hd & _ & Hv); [apply N.div_lt; lia|].
    pose proof (digit_val_pretty (x `mod` 10)%N) as Hc.
    specialize (Hc ltac:(apply N.mod_lt; lia)).
    exists (d +:+ String (pretty_N_char (x `mod` 10)) "").
    split; [|split; [|split]].
    + intros s. rewrite pretty_N_go_step by lia. rewrite Hgo.
      now rewrite append_assoc.
    + rewrite all_digits_app, Hd. cbn. now rewrite Hc.
    + intros _. destruct d; discriminate.
    + intros acc. rewrite (int_digits_app d _ acc _ Hd (Hv acc)).
      cbn [int_digits]. rewrite Hc. f_equal.
      assert (Hlen : String.length (d +:+ String (pretty_N_char (x `mod` 10)) "")
                     = S (String.length d)).
      { clear. induction d as [|c d IHd]; [done|]. rewrite append_cons.
        cbn [String.length]. now rewrite IHd. }
      rewrite Hlen, Nat2Z.inj_succ, Z.pow_succ_r by lia.
      pose proof (N.div_mod x 10 ltac:(lia)) as Hdm.
      apply (f_equal Z.of_N) in Hdm. rewrite N2Z.inj_add, N2Z.inj_mul in Hdm.
      change (Z.of_N 10) with 10 in Hdm. lia.
Qed.

Lemma all_digits_no_space d :
  all_digits d = true → Forall (λ c, Py.isspace c = false) (list_ascii_of_string d).
Proof.
  induction d as [|c d IH]; cbn; [constructor|].
  destruct (digit_val c) as [v|] eqn:E; [|done]. intros Hd.
  constructor; [now apply digit_val_char in E | now apply IH].
Qed.

Lemma rstrip_no_space s :
  Forall (λ c, Py.isspace c = false) (list_ascii_of_string s) → Py.rstrip s = s.
Proof.
  induction s as [|c s IH]; [done|]. cbn. intros [Hc Hs]%Forall_cons.
  rewrite (IH Hs), Hc. now destruct s.
Qed.

Lemma strip_no_space s :
  Forall (λ c, Py.isspace c = false) (list_ascii_of_string s) → Py.strip s = s.
Proof.
  intros Hs. unfold Py.strip.
  assert (Py.lstrip s = s) as ->; [|now apply rstrip_no_space].
  destruct s as [|c s]; [done|]. cbn. apply Forall_cons in Hs as [-> _]. done.
Qed.

Lemma split_go_no_space s : ∀ cur,
  Forall (λ c, Py.isspace c = false) (list_ascii_of_string s) →
  split_go cur s = match cur +:+ s with "" => [] | w => [w] end.
Proof.
  induction s as [|c s IH]; intros cur Hs; cbn [split_go].
  - rewrite append_empty_r. now destruct cur.
  - cbn in Hs. apply Forall_cons in Hs as [Hc Hs]. rewrite Hc, (IH _ Hs).
    now rewrite append_assoc.
Qed.

(** The decimal form of a natural number is a run of digits that reads
    back as the number. *)
Lemma pretty_N_read (x : N) :
  ∃ c d, pretty x = String c d
         ∧ all_digits (String c d) = true
         ∧ int_digits false 0 (String c d) = Some (Z.of_N x).
Proof.
  unfold pretty, pretty_N. case_decide as Hx.
  - subst x. now exists "0"%char, "".
  - destruct (pretty_N_go_digits x) as (d & Hgo & Hd & Hne & Hv).
    rewrite Hgo, append_empty_r.
    destruct d as [|c d]; [destruct Hne; [lia | done]|].
    exists c, d. split; [done|]. split; [done|].
    specialize (Hv 0). cbn [int_digits all_digits] in Hv, Hd |- *.
    destruct (digit_val c); [|done]. rewrite Hv. f_equal.
Qed.

(** [int(str(n))] is [n]. *)
Lemma int_of_str_str (z : Z) : int_of_str (Py.str z) = Some z.
Proof.
  destruct z as [|p|p]; [done| |].
  - change (Py.str (Z.pos p)) with (pretty (N.pos p)).
    destruct (pretty_N_read (N.pos p)) as (c & d & -> & Hd & Hv).
    unfold int_of_str. rewrite strip_no_space by now apply all_digits_no_space.
    cbn in Hd. destruct (digit_val c) as [v|] eqn:Ec; [|done].
    destruct c as [[] [] [] [] [] [] [] []];
      try (vm_compute in Ec; discriminate Ec); exact Hv.
  - destruct (pretty_N_read (N.pos p)) as (c & d & E & Hd & Hv).
    change (int_of_str ("-" +:+ pretty (N.pos p)) = Some (Z.neg p)).
    rewrite E. unfold int_of_str.
    rewrite strip_no_space.
    + rewrite append_cons. cbv iota beta. change ("" +:+ String c d) with (String c d).
      rewrite Hv. done.
    + rewrite append_cons. change ("" +:+ String c d) with (String c d).
      change (list_ascii_of_string (String "-" (String c d)))
        with ("-"%char :: list_ascii_of_string (String c d)).
      constructor; [done|]. now apply all_digits_no_space.
Qed.

(** [str(n).isdigit()] holds exactly for the non-negative [n]. *)
Lemma isdigit_str (z : Z) : isdigit (Py.str z) = bool_decide (0 <= z).
Proof.
  destruct z as [|p|p]; [done| |done].
  change (Py.str (Z.pos p)) with (pretty (N.pos p)).
  destruct (pretty_N_read (N.pos p)) as (c & d & -> & Hd & _).
  unfold isdigit. now rewrite Hd.
Qed.

Lemma str_no_space (z : Z) :
  Forall (λ c, Py.isspace c = false) (list_ascii_of_string (Py.str z)).
Proof.
  destruct z as [|p|p].
  - repeat constructor.
  - change (Py.str (Z.pos p)) with (pretty (N.pos p)).
    destruct (pretty_N_read (N.pos p)) as (c & d & -> & Hd & _).
    now apply all_digits_no_space.
  - destruct (pretty_N_read (N.pos p)) as (c & d & E & Hd & _).
    change (Forall (λ c, Py.isspace c = false)
              (list_ascii_of_string ("-" +:+ pretty (N.pos p)))).
    rewrite E, append_cons. change ("" +:+ String c d) with (String c d).
    change (list_ascii_of_string (String "-" (String c d)))
      with ("-"%char :: list_ascii_of_string (String c d)).
    constructor; [done|]. now apply all_digits_no_space.
Qed.

Lemma str_not_empty (z : Z) : Py.str z ≠ "".
Proof.
  destruct z as [|p|p]; [done| |done].
  change (Py.str (Z.pos p)) with (pretty (N.pos p)).
  destruct (pretty_N_read (N.pos p)) as (c & d & -> & _). done.
Qed.

(** The text [f"PID {pid}"] gives the pid back through
    [int(text.split()[1])]. *)
Lemma text_path (pid : Z) :
  startswith (Py.lower ("PID " +:+ Py.str pid)) "pid" = true
  ∧ split ("PID " +:+ Py.str pid) = ["PID"; Py.str pid].
Proof.
  split; [done|]. unfold split.
  change (split_go "" ("PID " +:+ Py.str pid)) with ("PID" :: split_go "" (Py.str pid)).
  rewrite split_go_no_space by apply str_no_space.
  cbn [append]. pose proof (str_not_empty pid). now destruct (Py.str pid).
Qed.

(** One child row gives back the pid it was inserted for, whether tkinter
    hands the pids cell back as the string stored or as a number. *)
Lemma pid_of_row_back (pid : Z) (row : child_row) :
  row_text row = TkStr ("PID " +:+ Py.str pid) →
  row_pids row = TkStr (Py.str pid) ∨ row_pids row = TkInt pid →
  pid_of_row row = Some pid.
Proof.
  intros Ht Hp. unfold pid_of_row. cbn zeta. rewrite Ht. cbn [str_or_empty].
  destruct (text_path pid) as [Hsw Hsp]. rewrite Hsw, Hsp.
  assert (Hcell : str_or_empty (row_pids row) = Py.str pid
                  ∨ str_or_empty (row_pids row) = "").
  { destruct Hp as [-> | ->]; [now left|]. destruct pid; [now right | now left..]. }
  destruct Hcell as [-> | ->].
  - rewrite isdigit_str. case_bool_decide; apply int_of_str_str.
  - cbn. apply int_of_str_str.
Qed.

(** X16. The pids that [stop_selected_task] and [end_selected_task]
    collect from the child rows of the selected group are exactly the pids
    for which [display_processes] inserted those rows, in order: each row,
    with text ["PID " + str(pid)] and pids cell [str(pid)], gives back
    [pid], also when tkinter returns the cell as the number [pid] (for
    [0], which [or ""] turns into the empty string, the text of the row is
    parsed instead). *)
Theorem collected_pids_are_group_pids (pid_list : list Z) (rows : list child_row) :
  Forall2 (λ pid row,
             row_text row = TkStr ("PID " +:+ Py.str pid)
             ∧ (row_pids row = TkStr (Py.str pid) ∨ row_pids row = TkInt pid))
          pid_list rows →
  collect_pids rows = pid_list.
Proof.
  induction 1 as [|pid row pids rows [Ht Hp] _ IH]; [done|].
  unfold collect_pids in *. cbn [omap list_omap].
  fold (omap pid_of_row rows).
  now rewrite (pid_of_row_back pid row Ht Hp), IH.
Qed.

Lemma collected_pids_are_group_pids_witness :
  collect_pids [child_row_of 4012;
                {| row_text := TkStr "PID 0"; row_pids := TkInt 0 |};
                {| row_text := TkStr "PID 77"; row_pids := TkInt 77 |}]
  = [4012; 0; 77].
Proof.
  apply (collected_pids_are_group_pids [4012; 0; 77]).
  repeat (constructor;
          [split; [reflexivity | first [left; reflexivity | right; reflexivity]]|]).
  constructor.
Defined.

(** Rows as [display_processes] inserts them. *)
Lemma child_rows_back (p : Agg.group) : collect_pids (child_rows p) = Agg.pids p.
Proof.
  unfold child_rows. unfold collect_pids.
  induction (Agg.pids p) as [|pid l IH]; [done|]. rewrite fmap_cons.
  cbn [omap list_omap]. fold (omap pid_of_row (child_row_of <$> l)).
  rewrite (pid_of_row_back pid (child_row_of pid)) by (try left; done).
  now rewrite IH.
Qed.

End TreeFacts.

(** ** Clicking a toast *)

Section ClickFacts.

Import Tree.




(** The toast is for "db.exe" (900 MB), while the click selects the row
    of "Db.exe", which is not over the limit. *)
Example toast_click_other_row :
  Alert.toasts
    (Alert.display_processes ∅ (Some 200%Q)
       [Search.group_named "Db.exe" [1] 100; Search.group_named "db.exe" [2] 900])
  = [{| Alert.toast_name := "db.exe"; Alert.toast_mem := 900 |}]
  ∧ on_notification_click "db.exe" ["Db.exe"; "db.exe"] = Some 0%nat.
Proof. split; vm_compute; reflexivity. Qed.

End ClickFacts.

(** ** Grouping and summing: further properties *)

Section AggMore.

Import Agg.

Implicit Types (g : group) (l : list group).

Lemma insert_by_cpu_descending x l :
  cpu_descending l → cpu_descending (insert_by_cpu x l).
Proof.
  induction l as [|y l IH]; cbn [insert_by_cpu cpu_descending].
  - intros _. split; [constructor | exact I].
  - intros [Hy Hl]. destruct (Qlt_le_dec (cpu x) (cpu y)) as [Hlt | Hle];
      cbn [cpu_descending].
    + split; [|now apply IH].
      rewrite insert_by_cpu_perm. constructor; [now apply Qlt_le_weak | exact Hy].
    + split; [|split; [exact Hy | exact Hl]].
      constructor; [exact Hle|].
      eapply Forall_impl; [exact Hy|]. cbn. intros z Hz. now apply (Qle_trans _ (cpu y)).
Qed.

(** The groups whose [cpu] equals [c] keep their order through the sort. *)
Lemma insert_by_cpu_stable (c : Q) x l :
  List.filter (λ g, Qeq_bool (cpu g) c) (insert_by_cpu x l)
  = List.filter (λ g, Qeq_bool (cpu g) c) (x :: l).
Proof.
  induction l as [|y l IH]; cbn [insert_by_cpu]; [done|].
  destruct (Qlt_le_dec (cpu x) (cpu y)) as [Hlt | Hle]; [|done].
  cbn [List.filter] in *. rewrite IH.
  destruct (Qeq_bool (cpu x) c) eqn:Ex; [|done].
  destruct (Qeq_bool (cpu y) c) eqn:Ey; [|done].
  apply Qeq_bool_iff in Ex, Ey. exfalso. rewrite Ex, Ey in Hlt.
  exact (Qlt_irrefl _ Hlt).
Qed.

Lemma sort_by_cpu_desc_spec l :
  cpu_descending (sort_by_cpu_desc l)
  ∧ ∀ c, List.filter (λ g, Qeq_bool (cpu g) c) (sort_by_cpu_desc l)
         = List.filter (λ g, Qeq_bool (cpu g) c) l.
Proof.
  unfold sort_by_cpu_desc. induction l as [|x l [IH1 IH2]]; cbn [foldr].
  - split; [exact I | done].
  - split; [now apply insert_by_cpu_descending|].
    intros c. rewrite insert_by_cpu_stable. cbn [List.filter]. now rewrite IH2.
Qed.

(** X20. [update_processes_list] returns the groups built by its loop,
    each key once, ordered by [cpu], largest first; groups with equal
    [cpu] stay in the order in which their keys were first seen (the sort
    is stable). *)
Theorem output_sorted_by_cpu
    (lni : gmap Z (Z * Q)) (samples : list proc_sample) (now : Q) :
  let built := (collect now lni samples).1.*2 in
  let out := (update_processes_list lni samples now).1 in
  out ≡ₚ built
  ∧ NoDup (key <$> out)
  ∧ cpu_descending out
  ∧ ∀ c, List.filter (λ g, Qeq_bool (cpu g) c) out
         = List.filter (λ g, Qeq_bool (cpu g) c) built.
Proof.
  cbn zeta. unfold update_processes_list.
  pose proof (collect_inv now lni samples) as [Hnd Hinv].
  destruct (collect now lni samples) as [d lni']. cbn [fst] in *.
  change (map snd d) with (d.*2).
  destruct (sort_by_cpu_desc_spec d.*2) as [Hsorted Hstable].
  split; [apply sort_by_cpu_desc_perm|]. split; [|split; [exact Hsorted | exact Hstable]].
  rewrite sort_by_cpu_desc_perm.
  assert (Hkey : ∀ k g, (k, g) ∈ d → key g = k).
  { intros k g Hin. pose proof (elem_of_dict_get _ _ _ Hnd Hin) as Hget.
    specialize (Hinv k). rewrite Hget in Hinv. now destruct Hinv as [-> _]. }
  assert (Hkeys : key <$> d.*2 = d.*1).
  { clear -Hkey. induction d as [|[k g] d IH]; [done|].
    rewrite !fmap_cons. cbn [fst snd]. f_equal.
    - apply Hkey. apply elem_of_cons. now left.
    - apply IH. intros k' g' Hin. apply Hkey. apply elem_of_cons. now right. }
  now rewrite Hkeys.
Qed.

(** What the loop keeps true of every group it builds. *)
Lemma collect_groups_ind (P : group → Prop) now lni samples :
  (∀ k dn, P (new_group k dn)) →
  (∀ s c net g,
     s ∈ samples → cpu_percent s = Some c → (0 <= net)%Q → P g →
     P (add_to_group (pid s)
          {| d_cpu := c; d_memory := mem_mb_of s;
             d_power := _estimate_power_mw c; d_network := net |} g)) →
  ∀ k g, dict_get k (collect now lni samples).1 = Some g → P g.
Proof.
  intros Hnew Hadd. unfold collect.
  induction samples as [|s l IH] using rev_ind; [intros k g Hget; discriminate Hget|].
  rewrite fold_left_app. cbn [fold_left].
  assert (IH' : ∀ k g, dict_get k (fold_left (process_one now) l ([], lni)).1 = Some g → P g).
  { apply IH. intros s' c net g Hin. apply Hadd. apply elem_of_app. now left. }
  clear IH. destruct (fold_left (process_one now) l ([], lni)) as [d lni1].
  cbn [fst] in IH'. unfold process_one.
  destruct (cpu_percent s) as [c|] eqn:Hc; [|exact IH'].
  pose proof (kbps_nonneg lni1 (pid s) (io s) now) as Hnet.
  destruct (Net._get_network_kbps_for_pid lni1 (pid s) (io s) now) as [net lni2].
  cbn [fst] in *. intros k g. rewrite dict_get_step.
  case_decide as Hk; [|apply IH'].
  intros [= <-]. apply Hadd; [apply elem_of_app; right; now apply list_elem_of_singleton
                             | exact Hc | exact Hnet |].
  destruct (dict_get (group_key s) d) as [g0|] eqn:Hg0; cbn [default].
  - exact (IH' _ _ Hg0).
  - apply Hnew.
Qed.

(** X21. In every group that [update_processes_list] returns, the power
    estimate is 150 mW per percent of the group's cpu (15 W of TDP at
    100 %), the network sum is not negative, and the memory sum is not
    negative as long as no sample reports a negative [rss]. *)
Theorem group_power_and_network
    (lni : gmap Z (Z * Q)) (samples : list proc_sample) (now : Q) (g : group) :
  g ∈ (update_processes_list lni samples now).1 →
  (power g == 150 * cpu g)%Q
  ∧ (0 <= network g)%Q
  ∧ ((∀ s rss, s ∈ samples → memory_info s = Some rss → 0 <= rss) → (0 <= memory g)%Q).
Proof.
  intros Hg. apply output_groups in Hg. split; [|split].
  - revert Hg. apply (collect_groups_ind (λ g, (power g == 150 * cpu g)%Q)).
    + intros k dn. cbn. reflexivity.
    + intros s c net g0 _ _ _ Hp. cbn [add_to_group power cpu d_power d_cpu].
      rewrite Hp. unfold _estimate_power_mw, CPU_TDP_WATTS. field.
  - revert Hg. apply (collect_groups_ind (λ g, (0 <= network g)%Q)).
    + intros k dn. cbn. apply Qle_refl.
    + intros s c net g0 _ _ Hnet Hp. cbn [add_to_group network d_network].
      lra.
  - intros Hrss. revert Hg. apply (collect_groups_ind (λ g, (0 <= memory g)%Q)).
    + intros k dn. cbn. apply Qle_refl.
    + intros s c net g0 Hs _ _ Hp. cbn [add_to_group memory d_memory].
      assert (0 <= mem_mb_of s)%Q; [|lra].
      unfold mem_mb_of. destruct (memory_info s) as [rss|] eqn:Em; [|apply Qle_refl].
      specialize (Hrss s rss Hs Em). unfold Py.float.
      apply Qle_shift_div_l; [reflexivity|]. rewrite Qmult_0_l.
      unfold Qle. cbn. lia.
Qed.

Lemma group_power_and_network_witness :
  ∃ g, head (update_processes_list ∅ [sample 10 "Chrome.exe" 1048576 5;
                                        sample 11 "chrome.exe" 2097152 7] 100).1 = Some g
       ∧ (power g == 150 * cpu g)%Q ∧ (0 <= network g)%Q.
Proof.
  eexists. split; [vm_compute; reflexivity|].
  match goal with
  | |- (power ?g == _)%Q ∧ _ =>
      destruct (group_power_and_network ∅ [sample 10 "Chrome.exe" 1048576 5;
                                            sample 11 "chrome.exe" 2097152 7] 100 g)
        as (Hp & Hn & _)
  end.
  - apply (head_Some_elem_of _ _). vm_compute. reflexivity.
  - split; [exact Hp | exact Hn].
Defined.

(** The byte total that [_get_network_kbps_for_pid] reads from the
    counters. *)
Lemma net_step lni p (i : option Net.io_counters) now p' :
  (Net._get_network_kbps_for_pid lni p i now).2 !! p'
  = match i with
    | Some c =>
        if decide (p' = p)
        then Some (Py.or_default (Net.read_bytes c) 0
                   + Py.or_default (Net.write_bytes c) 0, now)
        else lni !! p'
    | None => lni !! p'
    end.
Proof.
  destruct i as [c|]; cbn [Net._get_network_kbps_for_pid snd]; [|done].
  case_decide as Hp; [subst; apply lookup_insert_eq | now apply lookup_insert_ne].
Qed.

Lemma process_one_net now d lni s p' :
  (process_one now (d, lni) s).2 !! p'
  = match cpu_percent s, io s with
    | Some _, Some c =>
        if decide (p' = pid s)
        then Some (Py.or_default (Net.read_bytes c) 0
                   + Py.or_default (Net.write_bytes c) 0, now)
        else lni !! p'
    | _, _ => lni !! p'
    end.
Proof.
  unfold process_one. destruct (cpu_percent s) as [c|]; [|done].
  pose proof (net_step lni (pid s) (io s) now p') as Hn.
  destruct (Net._get_network_kbps_for_pid lni (pid s) (io s) now) as [net lni'].
  cbn [snd] in *. rewrite Hn. now destruct (io s).
Qed.

(** X22. The baselines [last_net_io] after a refresh.  A pid keeps an
    entry once it has one: nothing is ever removed, also for processes
    that are gone.  The entry of a pid none of whose samples was read with
    its I/O counters is unchanged.  Over an enumeration in which every pid
    occurs once, the entry of every sample read with its counters is that
    sample's byte total and the time of this refresh. *)
Theorem baselines_after_refresh
    (lni : gmap Z (Z * Q)) (samples : list proc_sample) (now : Q) :
  let lni' := (update_processes_list lni samples now).2 in
  (∀ p, is_Some (lni !! p) → is_Some (lni' !! p))
  ∧ (∀ p, (∀ s, s ∈ samples → pid s = p → cpu_percent s = None ∨ io s = None) →
          lni' !! p = lni !! p)
  ∧ (NoDup (pid <$> samples) →
     ∀ s c i, s ∈ samples → cpu_percent s = Some c → io s = Some i →
              lni' !! pid s
              = Some (Py.or_default (Net.read_bytes i) 0
                      + Py.or_default (Net.write_bytes i) 0, now)).
Proof.
  cbn zeta.
  assert (Hsnd : (update_processes_list lni samples now).2 = (collect now lni samples).2).
  { unfold update_processes_list. now destruct (collect now lni samples). }
  rewrite Hsnd. clear Hsnd. unfold collect.
  induction samples as [|s l (IH1 & IH2 & IH3)] using rev_ind.
  - cbn. split; [done|]. split; [done|]. intros _ s c i Hin. now apply elem_of_nil in Hin.
  - rewrite fold_left_app. cbn [fold_left].
    destruct (fold_left (process_one now) l ([], lni)) as [d lni1]. cbn [snd] in *.
    split; [|split].
    + intros p Hp. rewrite process_one_net.
      destruct (cpu_percent s), (io s); try (now apply IH1).
      case_decide; [eauto | now apply IH1].
    + intros p Hno. rewrite process_one_net.
      assert (Hl : lni1 !! p = lni !! p).
      { apply IH2. intros s' Hin. apply Hno. apply elem_of_app. now left. }
      destruct (cpu_percent s) as [c|] eqn:Ec; [|exact Hl].
      destruct (io s) as [i|] eqn:Ei; [|exact Hl].
      case_decide as Hp; [|exact Hl]. exfalso.
      destruct (Hno s) as [H | H]; [apply elem_of_app; right; now apply list_elem_of_singleton
                                   | done | congruence | congruence].
    + intros Hnd s' c i Hin Hc Hi. rewrite process_one_net.
      rewrite fmap_app in Hnd. apply NoDup_app in Hnd as (Hndl & Hdisj & _).
      apply elem_of_app in Hin as [Hin | ->%list_elem_of_singleton].
      * assert (Hne : pid s' ≠ pid s).
        { intros Heq. apply (Hdisj (pid s')); [now apply list_elem_of_fmap_2|].
          rewrite Heq. cbn. apply elem_of_cons. now left. }
        destruct (cpu_percent s), (io s); try (now apply (IH3 Hndl s' c i)).
        rewrite decide_False by done. now apply (IH3 Hndl s' c i).
      * rewrite Hc, Hi. now rewrite decide_True.
Qed.

(** Pid 10 was last seen with 7000 bytes; it is gone now, and pid 11 is
    read with 300 bytes at time 100. *)
Lemma baselines_after_refresh_witness :
  let s11 := {| pid := 11; name := Some "helper"; memory_info := Some 1048576;
                cpu_percent := Some 5%Q;
                io := Some {| Net.read_bytes := Some 100; Net.write_bytes := Some 200 |} |} in
  let lni' := (update_processes_list {[ 10 := (7000, 90%Q) ]} [s11] 100).2 in
  lni' !! 11 = Some (300, 100%Q) ∧ is_Some (lni' !! 10).
Proof.
  intros s11 lni'.
  destruct (baselines_after_refresh {[ 10 := (7000, 90%Q) ]} [s11] 100) as (Hkeep & _ & Hnew).
  split.
  - apply (Hnew ltac:(apply NoDup_singleton) s11 5%Q
             {| Net.read_bytes := Some 100; Net.write_bytes := Some 200 |});
      [now apply list_elem_of_singleton | reflexivity | reflexivity].
  - apply Hkeep. rewrite lookup_singleton_eq. eauto.
Defined.

End AggMore.
